(** * LLM council: the ranking parser, the rank aggregation and the
      three-stage pipeline of [backend/council.py].

    A Python [str] is modelled as the list of its code points.  The
    character classes of the source's patterns are those of [re] on
    [str] patterns: [\d] is the Unicode category Nd, [\s] the characters
    for which [str.isspace] holds, [[A-Z]] the 26 ASCII capitals. *)

From Stdlib Require Import String Ascii ZArith Lia Bool Arith.
From Stdlib Require Import List FinFun Sorting.Sorted Sorting.Permutation.
Import ListNotations.

Set Implicit Arguments.

(** ** Exceptions *)

Inductive exn : Type :=
| AttributeError
| KeyError
| TypeError
| ValueError
| IndexError.

Inductive result (A : Type) : Type :=
| Ok (a : A)
| Raise (e : exn).

Arguments Ok {A} a.
Arguments Raise {A} e.

Definition rbind {A B} (r : result A) (k : A -> result B) : result B :=
  match r with
  | Ok a => k a
  | Raise e => Raise e
  end.

Fixpoint rmap {A B} (f : A -> result B) (l : list A) : result (list B) :=
  match l with
  | [] => Ok []
  | x :: l' =>
      rbind (f x) (fun y => rbind (rmap f l') (fun ys => Ok (y :: ys)))
  end.

(** ** Text *)

Definition char := N.

Definition text := list char.

(** An ASCII literal as text. *)
Definition txt (s : string) : text := map N_of_ascii (list_ascii_of_string s).

Arguments txt s%_string.

Definition between (lo hi : N) (c : char) : bool :=
  ((lo <=? c) && (c <=? hi))%N.

(** First code points of the runs of ten decimal digits (category Nd,
    Unicode 14.0); the mathematical digits U+1D7CE..U+1D7FF are five
    consecutive runs. *)
Definition digit_runs : list N :=
  [0x30; 0x660; 0x6f0; 0x7c0; 0x966; 0x9e6; 0xa66; 0xae6; 0xb66; 0xbe6;
   0xc66; 0xce6; 0xd66; 0xde6; 0xe50; 0xed0; 0xf20; 0x1040; 0x1090;
   0x17e0; 0x1810; 0x1946; 0x19d0; 0x1a80; 0x1a90; 0x1b50; 0x1bb0;
   0x1c40; 0x1c50; 0xa620; 0xa8d0; 0xa900; 0xa9d0; 0xa9f0; 0xaa50;
   0xabf0; 0xff10; 0x104a0; 0x10d30; 0x11066; 0x110f0; 0x11136; 0x111d0;
   0x112f0; 0x11450; 0x114d0; 0x11650; 0x116c0; 0x11730; 0x118e0;
   0x11950; 0x11c50; 0x11d50; 0x11da0; 0x16a60; 0x16ac0; 0x16b50;
   0x1d7ce; 0x1d7d8; 0x1d7e2; 0x1d7ec; 0x1d7f6;
   0x1e140; 0x1e2f0; 0x1e950; 0x1fbf0]%N.

Definition is_digit (c : char) : bool :=
  existsb (fun lo => between lo (lo + 9) c) digit_runs.

Definition is_upper (c : char) : bool := between 0x41 0x5a c.

Definition is_space (c : char) : bool :=
  between 0x09 0x0d c || between 0x1c 0x20 c
  || (c =? 0x85)%N || (c =? 0xa0)%N || (c =? 0x1680)%N
  || between 0x2000 0x200a c || (c =? 0x2028)%N || (c =? 0x2029)%N
  || (c =? 0x202f)%N || (c =? 0x205f)%N || (c =? 0x3000)%N.

Fixpoint starts_with (p s : text) : bool :=
  match p, s with
  | [], _ => true
  | _ :: _, [] => false
  | a :: p', b :: s' => (a =? b)%N && starts_with p' s'
  end.

(** [sub in s] *)
Fixpoint contains (sub s : text) : bool :=
  starts_with sub s ||
  match s with
  | [] => false
  | _ :: s' => contains sub s'
  end.

(** [s.split(sep)] for a non-empty [sep]: [skip] characters of a separator
    just found are still to be dropped, [cur] is the current piece,
    reversed. *)
Fixpoint split_go (sep : text) (skip : nat) (cur : text) (s : text)
  : list text :=
  match s with
  | [] => [rev cur]
  | c :: s' =>
      match skip with
      | S k => split_go sep k cur s'
      | O =>
          if starts_with sep s
          then rev cur :: split_go sep (length sep - 1) [] s'
          else split_go sep 0 (c :: cur) s'
      end
  end.

Definition split (sep s : text) : list text := split_go sep 0 [] s.

(** The first character of the separator occurs nowhere else in it. *)
Definition head_unique (sep : text) : bool :=
  match sep with
  | [] => false
  | c :: tl => negb (existsb (N.eqb c) tl)
  end.

Fixpoint lstrip (s : text) : text :=
  match s with
  | c :: s' => if is_space c then lstrip s' else s
  | [] => []
  end.

(** [s.strip()] *)
Definition strip (s : text) : text := rev (lstrip (rev (lstrip s))).

(** ** Regular expressions

    The patterns of the source are sequences of literal characters,
    character classes and greedy repetitions of a class.  [match_here]
    is the backtracking matcher anchored at the head of the input; it
    returns the length of the first match in priority order. *)

Inductive atom : Type :=
| Lit (c : char)
| Class (p : char -> bool)
| Star (p : char -> bool)
| Plus (p : char -> bool).

Definition regex := list atom.

Definition one (p : char -> bool) (k : text -> option nat) (s : text)
  : option nat :=
  match s with
  | c :: s' => if p c then option_map S (k s') else None
  | [] => None
  end.

Fixpoint star (p : char -> bool) (k : text -> option nat) (s : text)
  : option nat :=
  match s with
  | c :: s' =>
      if p c then
        match star p k s' with
        | Some n => Some (S n)
        | None => k s
        end
      else k s
  | [] => k []
  end.

Fixpoint match_here (r : regex) : text -> option nat :=
  match r with
  | [] => fun _ => Some 0
  | Lit c :: r' => one (N.eqb c) (match_here r')
  | Class p :: r' => one p (match_here r')
  | Star p :: r' => star p (match_here r')
  | Plus p :: r' => one p (star p (match_here r'))
  end.

(** The strings a pattern denotes. *)
Fixpoint lang (r : regex) (m : text) : Prop :=
  match r with
  | [] => m = []
  | Lit c :: r' => exists m', m = c :: m' /\ lang r' m'
  | Class p :: r' => exists c m', m = c :: m' /\ p c = true /\ lang r' m'
  | Star p :: r' =>
      exists cs m', m = cs ++ m' /\ forallb p cs = true /\ lang r' m'
  | Plus p :: r' =>
      exists c cs m',
        m = c :: cs ++ m' /\ p c = true /\ forallb p cs = true /\ lang r' m'
  end.

(** [re.findall(r, s)] for a pattern that matches no empty string. *)
Fixpoint findall_go (r : regex) (skip : nat) (s : text) : list text :=
  match s with
  | [] => []
  | _ :: s' =>
      match skip with
      | S k => findall_go r k s'
      | O =>
          match match_here r s with
          | Some n => firstn n s :: findall_go r (n - 1) s'
          | None => findall_go r 0 s'
          end
      end
  end.

Definition findall (r : regex) (s : text) : list text := findall_go r 0 s.

(** [re.search(r, s)]: the leftmost match, if any. *)
Fixpoint search (r : regex) (s : text) : option text :=
  match match_here r s with
  | Some n => Some (firstn n s)
  | None =>
      match s with
      | [] => None
      | _ :: s' => search r s'
      end
  end.

(** [m.group()] on the result of [re.search]; [None] has no [group]. *)
Definition group (m : option text) : result text :=
  match m with
  | Some g => Ok g
  | None => Raise AttributeError
  end.

Definition lits (s : string) : regex := map Lit (txt s).

(** [r'\d+\.\s*Response [A-Z]'] *)
Definition numbered_re : regex :=
  [Plus is_digit; Lit 0x2e%N; Star is_space]
    ++ lits "Response " ++ [Class is_upper].

(** [r'Response [A-Z]'] *)
Definition label_re : regex := lits "Response " ++ [Class is_upper].

Definition marker : text := txt "FINAL RANKING:".

(** ** RankParser *)

Definition parse_ranking_from_text (ranking_text : text)
  : result (list text) :=
  if contains marker ranking_text then
    let parts := split marker ranking_text in
    if 2 <=? length parts then
      let ranking_section := nth 1 parts [] in
      let numbered_matches := findall numbered_re ranking_section in
      match numbered_matches with
      | _ :: _ =>
          rmap (fun m => group (search label_re m)) numbered_matches
      | [] => Ok (findall label_re ranking_section)
      end
    else Ok (findall label_re ranking_text)
  else Ok (findall label_re ranking_text).

(** The ['Response <LETTER>'] portion of a numbered match: its last ten
    characters. *)
Definition label_portion (m : text) : text := skipn (length m - 10) m.

(** What the parser extracts from a ranking section. *)
Definition section_ranking (ranking_section : text) : list text :=
  match findall numbered_re ranking_section with
  | [] => findall label_re ranking_section
  | m :: ms => map label_portion (m :: ms)
  end.

(** ** Dictionaries

    A Python [dict] with [str] keys, in insertion order. *)

Fixpoint text_eqb (a b : text) : bool :=
  match a, b with
  | [], [] => true
  | x :: a', y :: b' => (x =? y)%N && text_eqb a' b'
  | _, _ => false
  end.

Definition dict (V : Type) := list (text * V).

(** [d.get(k)] *)
Fixpoint dict_get {V} (k : text) (d : dict V) : option V :=
  match d with
  | [] => None
  | (k', v) :: d' => if text_eqb k' k then Some v else dict_get k d'
  end.

(** [d[k] = v]: an existing key keeps its place, a new key goes last. *)
Fixpoint dict_set {V} (k : text) (v : V) (d : dict V) : dict V :=
  match d with
  | [] => [(k, v)]
  | (k', v') :: d' =>
      if text_eqb k' k then (k', v) :: d' else (k', v') :: dict_set k v d'
  end.

(** ** Floats

    A finite binary64 number is [mant * 2 ^ expo]; the results below are
    zero or normalised ([2^52 <= mant < 2^53]).  Overflow and subnormal
    numbers are outside the model. *)

Record float : Type := { mant : Z; expo : Z }.

Definition round_half_even_div (a b : Z) : Z :=
  let q := (a / b)%Z in
  let r := (a mod b)%Z in
  if (2 * r <? b)%Z then q
  else if (b <? 2 * r)%Z then (q + 1)%Z
  else if Z.even q then q else (q + 1)%Z.

(** [floor (log2 (p / q))] for positive [p] and [q]. *)
Definition ilog2_ratio (p q : Z) : Z :=
  let e := (Z.log2 p - Z.log2 q)%Z in
  let above :=
    if (0 <=? e)%Z then (q * 2 ^ e <=? p)%Z else (q <=? p * 2 ^ (- e))%Z in
  if above then e else (e - 1)%Z.

(** The correctly rounded quotient of two integers, [p >= 0] and [q > 0]:
    Python's [p / q] on [int], and the conversion of the decimal [p / q]. *)
Definition float_of_ratio (p q : Z) : float :=
  if (p =? 0)%Z then {| mant := 0; expo := 0 |}
  else
    let t := (52 - ilog2_ratio p q)%Z in
    let m :=
      if (0 <=? t)%Z then round_half_even_div (p * 2 ^ t) q
      else round_half_even_div p (q * 2 ^ (- t)) in
    if (m =? 2 ^ 53)%Z then {| mant := 2 ^ 52; expo := 1 - t |}
    else {| mant := m; expo := - t |}.

(** The integer nearest to [100 * x], ties to even. *)
Definition hundredths (x : float) : Z :=
  if (0 <=? expo x)%Z then (100 * mant x * 2 ^ expo x)%Z
  else round_half_even_div (100 * mant x) (2 ^ (- expo x)).

(** [round(x, 2)] for [x >= 0]: the exact value of [x] is rounded to two
    decimals, ties to even, and the decimal is converted back. *)
Definition round2 (x : float) : float := float_of_ratio (hundredths x) 100.

(** [x < y] *)
Definition float_ltb (x y : float) : bool :=
  let e := Z.min (expo x) (expo y) in
  (mant x * 2 ^ (expo x - e) <? mant y * 2 ^ (expo y - e))%Z.

(** ** Aggregator *)

Record Stage2Result : Type := {
  s2_model : text;
  ranking : text;
  parsed_ranking : list text
}.

Record AggregateEntry : Type := {
  agg_model : text;
  average_rank : float;
  rankings_count : Z
}.

Definition zsum (l : list Z) : Z := fold_right Z.add 0%Z l.

Definition zlen (l : list Z) : Z := Z.of_nat (length l).

(** [model_positions[persona_name]] on a [defaultdict(list)] *)
Definition positions_of (persona_name : text) (model_positions : dict (list Z))
  : list Z :=
  match dict_get persona_name model_positions with
  | Some positions => positions
  | None => []
  end.

(** The inner loop over [enumerate(parsed_ranking, start=position)]. *)
Fixpoint record_ranking (label_to_persona : dict text) (position : Z)
  (parsed_ranking : list text) (model_positions : dict (list Z))
  : dict (list Z) :=
  match parsed_ranking with
  | [] => model_positions
  | label :: rest =>
      record_ranking label_to_persona (position + 1) rest
        match dict_get label label_to_persona with
        | Some persona_name =>
            dict_set persona_name
              (positions_of persona_name model_positions ++ [position])
              model_positions
        | None => model_positions
        end
  end.

(** The outer loop over [stage2_results]. *)
Fixpoint collect_positions (stage2_results : list Stage2Result)
  (label_to_persona : dict text) (model_positions : dict (list Z))
  : result (dict (list Z)) :=
  match stage2_results with
  | [] => Ok model_positions
  | r :: rest =>
      rbind (parse_ranking_from_text (ranking r)) (fun parsed =>
      collect_positions rest label_to_persona
        (record_ranking label_to_persona 1 parsed model_positions))
  end.

Definition aggregate_entry (item : text * list Z) : list AggregateEntry :=
  let (model, positions) := item in
  match positions with
  | [] => []
  | _ :: _ =>
      let avg_rank := float_of_ratio (zsum positions) (zlen positions) in
      [ {| agg_model := model;
           average_rank := round2 avg_rank;
           rankings_count := zlen positions |} ]
  end.

(** [list.sort(key=...)] is stable; so is this insertion sort. *)
Fixpoint insert_entry (x : AggregateEntry) (l : list AggregateEntry)
  : list AggregateEntry :=
  match l with
  | [] => [x]
  | y :: l' =>
      if float_ltb (average_rank y) (average_rank x)
      then y :: insert_entry x l'
      else x :: l
  end.

Definition sort_by_average_rank (l : list AggregateEntry)
  : list AggregateEntry :=
  fold_right insert_entry [] l.

Definition calculate_aggregate_rankings (stage2_results : list Stage2Result)
  (label_to_persona : dict text) : result (list AggregateEntry) :=
  rbind (collect_positions stage2_results label_to_persona [])
    (fun model_positions =>
       Ok (sort_by_average_rank (flat_map aggregate_entry model_positions))).

(** ** Values decoded from JSON *)

#[local] Unset Elimination Schemes.

Inductive pyval : Type :=
| PNone
| PBool (b : bool)
| PInt (z : Z)
| PFloat (x : float)
| PStr (s : text)
| PList (l : list pyval)
| PDict (d : list (text * pyval)).

#[local] Set Elimination Schemes.

(** A [Dict[str, str]] as a value: the persona dictionaries of the
    configuration. *)
Definition py_of_dict (d : dict text) : pyval :=
  PDict (map (fun kv => (fst kv, PStr (snd kv))) d).

(** ** Collaborators and configuration *)

Record Message : Type := { role : text; content : text }.

(** The reply of the model-query collaborator; [None] is a reply without
    the key ['content']. *)
Record Response : Type := { reply_content : option text }.

(** [config.py], and the two collaborators outside the repository's
    sources: [json.loads] ([None]: the text does not decode) and the
    outcome of the [n]-th model query of a turn. *)
Class Environment : Type := {
  PERSONAS : dict (dict text);
  DEFAULT_PERSONAS : list text;
  CHAIRMAN_MODEL : text;
  json_loads : text -> option pyval;
  reply : nat -> text -> list Message -> option Response
}.

(** ** The turn's effects

    The world is the trace of the turn: the model queries issued and the
    operations entered, oldest first.  An [M A] runs on a trace, extends
    it and returns a value or raises.  [Enter op] records that an
    operation was entered, as a call count on a mocked operation would. *)

Inductive operation : Type :=
| OpPlanner
| OpStage1
| OpStage2
| OpAggregate
| OpStage3.

Inductive event : Type :=
| Query (model : text) (messages : list Message)
| Enter (op : operation).

Definition world := list event.

Definition M (A : Type) : Type := world -> result A * world.

Definition ret {A} (a : A) : M A := fun w => (Ok a, w).

Definition bind {A B} (m : M A) (k : A -> M B) : M B :=
  fun w =>
    match m w with
    | (Ok a, w') => k a w'
    | (Raise e, w') => (Raise e, w')
    end.

Definition lift {A} (r : result A) : M A := fun w => (r, w).

Definition enter (op : operation) : M unit := fun w => (Ok tt, w ++ [Enter op]).

Declare Scope council_scope.
Delimit Scope council_scope with council.
Notation "x <- m ;; k" := (bind m (fun x => k))
  (at level 100, m at next level, right associativity) : council_scope.
Notation "m ;; k" := (bind m (fun _ => k))
  (at level 100, right associativity) : council_scope.
Open Scope council_scope.

Definition is_query (e : event) : bool :=
  match e with
  | Query _ _ => true
  | Enter _ => false
  end.

Definition queries (w : world) : nat := length (filter is_query w).

(** Modelled from the spec: [query_model] of [backend/openrouter.py],
    which is not among the sources: [query(model_id, messages, timeout)
    -> optional {content: text}], absence of a result on any failure,
    never an exception. *)
Definition query_model `{Environment} (model : text) (messages : list Message)
  : M (option Response) :=
  fun w => (Ok (reply (queries w) model messages), w ++ [Query model messages]).

(** [await asyncio.gather( *tasks )]: every task runs, the results come in
    the order of the tasks. *)
Fixpoint gather `{Environment} (tasks : list (text * list Message))
  : M (list (option Response)) :=
  match tasks with
  | [] => ret []
  | (model, messages) :: rest =>
      r <- query_model model messages ;;
      rs <- gather rest ;;
      ret (r :: rs)
  end.

(** ** Prompts

    A string literal holds no double quote: [~] stands for it. *)

Definition quoted (s : string) : text :=
  map (fun c => if (c =? 126)%N then 34%N else c) (txt s).

Arguments quoted s%_string.

Definition planner_prompt (user_query : text) : text :=
  quoted "You are the Chairman of an AI Council. Your job is to assemble a team of 3-5 expert personas to answer the following question.
    
    Question: ~"
  ++ user_query
  ++ quoted "~
    
    Identify the most relevant perspectives or roles needed to provide a comprehensive, diverse, and high-quality answer.
    For example:
    - If the question is about business, you might need a ~Legal Expert~, ~Sales Strategist~, and ~Product Manager~.
    - If the question is about coding, you might need a ~Senior Architect~, ~Security Specialist~, and ~Performance Engineer~.
    - Always include at least one critical or alternative perspective (e.g., ~Devil's Advocate~, ~Skeptic~, ~Ethicist~).
    
    Return the result as a JSON object with a ~personas~ key containing a list of objects. Each object must have:
    - ~id~: A unique short identifier (e.g., ~legal_expert~)
    - ~name~: Display name (e.g., ~Legal Expert~)
    - ~role~: Short role description (e.g., ~Corporate Law Specialist~)
    - ~icon~: A single emoji representing the persona
    - ~style~: A short description of their tone/style (e.g., ~formal, cautious, precise~)
    - ~system_prompt~: A detailed system prompt that instructs the AI how to behave as this persona.
    - ~model~: The LLM model to use (choose from: ~openai/gpt-5.1~, ~anthropic/claude-sonnet-4.5~, ~google/gemini-3-pro-preview~, ~x-ai/grok-4~). Assign the most appropriate model for the role.
    
    JSON Response:".

Definition ranking_prompt (user_query : text) (responses_text : text) : text :=
  quoted "You are evaluating different responses to the following question:

Question: "
  ++ user_query
  ++ quoted "

Here are the responses from different perspectives (anonymized):

"
  ++ responses_text
  ++ quoted "

Your task:
1. First, evaluate each response individually. For each response, explain what it does well and what it does poorly.
2. Then, at the very end of your response, provide a final ranking.

IMPORTANT: Your final ranking MUST be formatted EXACTLY as follows:
- Start with the line ~FINAL RANKING:~ (all caps, with colon)
- Then list the responses from best to worst as a numbered list
- Each line should be: number, period, space, then ONLY the response label (e.g., ~1. Response A~)
- Do not add any other text or explanations in the ranking section

"
  ++ quoted "Example of the correct format for your ENTIRE response:

Response A provides good detail on X but misses Y...
Response B is accurate but lacks depth on Z...
Response C offers the most comprehensive answer...

FINAL RANKING:
1. Response C
2. Response A
3. Response B

Now provide your evaluation and ranking:".

Definition chairman_prompt (user_query : text) (stage1_text : text) (stage2_text : text) : text :=
  quoted "You are the Chairman of an LLM Council. Multiple AI Experts (Personas) have provided responses to a user's question, and then ranked each other's responses.

Original Question: "
  ++ user_query
  ++ quoted "

STAGE 1 - Expert Responses:
"
  ++ stage1_text
  ++ quoted "

STAGE 2 - Peer Rankings:
"
  ++ stage2_text
  ++ quoted "

Your task as Chairman is to synthesize all of this information into a single, comprehensive, accurate answer to the user's original question. Consider:
- The individual responses and their unique perspectives
- The peer rankings and what they reveal about response quality
- Any patterns of agreement or disagreement

Provide a clear, well-reasoned final answer that represents the council's collective wisdom:".

(** ** PersonaPlanner *)

Definition user_message (c : text) : Message :=
  {| role := txt "user"; content := c |}.

Definition system_message (c : text) : Message :=
  {| role := txt "system"; content := c |}.

(** [l[i]] *)
Definition index {A} (l : list A) (i : nat) : result A :=
  match nth_error l i with
  | Some x => Ok x
  | None => Raise IndexError
  end.

(** [[{**PERSONAS[pid], "id": pid} for pid in DEFAULT_PERSONAS
      if pid in PERSONAS]] *)
Definition default_personas `{Environment} : list (dict text) :=
  flat_map
    (fun pid =>
       match dict_get pid PERSONAS with
       | Some persona => [dict_set (txt "id") pid persona]
       | None => []
       end)
    DEFAULT_PERSONAS.

Definition fallback `{Environment} : pyval :=
  PList (map py_of_dict default_personas).

(** The removal of a surrounding code fence. *)
Definition strip_fence (content : text) : result text :=
  if contains (txt "```json") content then
    rbind (index (split (txt "```json") content) 1) (fun c =>
    index (split (txt "```") c) 0)
  else if contains (txt "```") content then
    rbind (index (split (txt "```") content) 1) (fun c =>
    index (split (txt "```") c) 0)
  else Ok content.

(** [data.get("personas", [])]; only a [dict] has [get]. *)
Definition get_personas (data : pyval) : result pyval :=
  match data with
  | PDict d =>
      match dict_get (txt "personas") d with
      | Some v => Ok v
      | None => Ok (PList [])
      end
  | _ => Raise AttributeError
  end.

(** The body of the [try] block. *)
Definition decode_personas `{Environment} (content : text) : result pyval :=
  rbind (strip_fence content) (fun content =>
  match json_loads (strip content) with
  | Some data => get_personas data
  | None => Raise ValueError
  end).

(** [response.get('content')], when it is truthy. *)
Definition truthy_content (response : option Response) : option text :=
  match response with
  | Some r =>
      match reply_content r with
      | Some (c :: s) => Some (c :: s)
      | _ => None
      end
  | None => None
  end.

Definition generate_dynamic_personas `{Environment} (user_query : text)
  : M pyval :=
  enter OpPlanner ;;
  response <- query_model CHAIRMAN_MODEL
                [user_message (planner_prompt user_query)] ;;
  match truthy_content response with
  | None => ret fallback
  | Some content =>
      match decode_personas content with
      | Ok personas => ret personas
      | Raise _ => ret fallback
      end
  end.

(** ** Stage 1 *)

(** The persona fields the pipeline reads. *)
Record Persona : Type := {
  id : text;
  name : text;
  persona_role : text;
  icon : text;
  system_prompt : text;
  model : text
}.

Record Stage1Result : Type := {
  s1_persona_id : text;
  s1_persona_name : text;
  s1_persona_role : text;
  s1_persona_icon : text;
  s1_model : text;
  response : text
}.

(** [response.get('content', '')] *)
Definition content_or_empty (r : Response) : text :=
  match reply_content r with
  | Some c => c
  | None => []
  end.

Definition stage1_result (persona : Persona) (response : option Response)
  : list Stage1Result :=
  match response with
  | Some r =>
      [ {| s1_persona_id := id persona;
           s1_persona_name := name persona;
           s1_persona_role := persona_role persona;
           s1_persona_icon := icon persona;
           s1_model := model persona;
           response := content_or_empty r |} ]
  | None => []
  end.

Definition stage1_collect_responses `{Environment} (user_query : text)
  (personas : list Persona) : M (list Stage1Result) :=
  enter OpStage1 ;;
  let tasks :=
    map (fun persona =>
           (model persona,
            [system_message (system_prompt persona);
             user_message user_query]))
        personas in
  responses <- gather tasks ;;
  ret (flat_map (fun pr => stage1_result (fst pr) (snd pr))
         (combine personas responses)).

(** ** Stage 2 *)

Record Stage2Ranked : Type := {
  stage2_results : list Stage2Result;
  label_to_persona : dict text
}.

(** [chr(i)] *)
Definition chr (i : N) : result char :=
  if (i <? 0x110000)%N then Ok i else Raise ValueError.

(** [[chr(65 + i) for i in range(n)]] *)
Definition labels (n : nat) : result (list char) :=
  rmap (fun i => chr (65 + N.of_nat i)) (seq 0 n).

Definition newline : text := [10%N].

(** [f"Response {label}"] *)
Definition response_label (label : char) : text :=
  txt "Response " ++ [label].

(** The dict comprehension over [zip(labels, stage1_results)]. *)
Definition label_mapping (labels : list char)
  (stage1_results : list Stage1Result) : dict text :=
  fold_left
    (fun d lr => dict_set (response_label (fst lr)) (s1_persona_name (snd lr)) d)
    (combine labels stage1_results) [].

(** [sep.join(l)] *)
Fixpoint join (sep : text) (l : list text) : text :=
  match l with
  | [] => []
  | [x] => x
  | x :: l' => x ++ sep ++ join sep l'
  end.

Definition responses_text (labels : list char)
  (stage1_results : list Stage1Result) : text :=
  join (newline ++ newline)
    (map (fun lr =>
            response_label (fst lr) ++ txt ":" ++ newline ++ response (snd lr))
       (combine labels stage1_results)).

(** The loop over [zip(ranking_models, responses)]. *)
Fixpoint format_rankings (l : list (text * option Response))
  : result (list Stage2Result) :=
  match l with
  | [] => Ok []
  | (ranker_name, None) :: rest => format_rankings rest
  | (ranker_name, Some r) :: rest =>
      let full_text := content_or_empty r in
      rbind (parse_ranking_from_text full_text) (fun parsed =>
      rbind (format_rankings rest) (fun results =>
      Ok ({| s2_model := ranker_name;
             ranking := full_text;
             parsed_ranking := parsed |} :: results)))
  end.

Definition stage2_collect_rankings `{Environment} (user_query : text)
  (stage1_results : list Stage1Result) : M Stage2Ranked :=
  enter OpStage2 ;;
  labels <- lift (labels (length stage1_results)) ;;
  let label_to_persona := label_mapping labels stage1_results in
  let messages :=
    [user_message
       (ranking_prompt user_query (responses_text labels stage1_results))] in
  let tasks := map (fun r => (s1_model r, messages)) stage1_results in
  let ranking_models := map s1_persona_name stage1_results in
  responses <- gather tasks ;;
  results <- lift (format_rankings (combine ranking_models responses)) ;;
  ret {| stage2_results := results; label_to_persona := label_to_persona |}.

(** ** Stage 3 *)

Record SynthesisResult : Type := { s3_model : text; s3_response : text }.

Definition stage1_text (stage1_results : list Stage1Result) : text :=
  join (newline ++ newline)
    (map (fun r =>
            txt "Persona: " ++ s1_persona_name r ++ txt " ("
            ++ s1_persona_icon r ++ txt ")" ++ newline
            ++ txt "Response: " ++ response r)
       stage1_results).

Definition stage2_text (stage2_results : list Stage2Result) : text :=
  join (newline ++ newline)
    (map (fun r =>
            txt "Ranker: " ++ s2_model r ++ newline
            ++ txt "Ranking: " ++ ranking r)
       stage2_results).

Definition synthesis_fallback : SynthesisResult :=
  {| s3_model := txt "Chairman";
     s3_response := txt "Error: Unable to generate final synthesis." |}.

Definition stage3_synthesize_final `{Environment} (user_query : text)
  (stage1_results : list Stage1Result) (stage2_results : list Stage2Result)
  : M SynthesisResult :=
  enter OpStage3 ;;
  response <- query_model CHAIRMAN_MODEL
                [user_message
                   (chairman_prompt user_query (stage1_text stage1_results)
                      (stage2_text stage2_results))] ;;
  match response with
  | None => ret synthesis_fallback
  | Some r =>
      ret {| s3_model := txt "Chairman"; s3_response := content_or_empty r |}
  end.

(** ** Pipeline orchestrator *)

(** The planner's value read as the persona list Stage 1 works on: the
    items the value iterates on, each a dictionary whose fields read by
    the pipeline are strings.  The typed pipeline starts here: a value
    with another item is outside it and raises here. *)
Definition field (key : string) (d : list (text * pyval)) : result text :=
  match dict_get (txt key) d with
  | Some (PStr s) => Ok s
  | Some _ => Raise TypeError
  | None => Raise KeyError
  end.

Definition as_persona (v : pyval) : result Persona :=
  match v with
  | PDict d =>
      rbind (field "id" d) (fun i =>
      rbind (field "name" d) (fun n =>
      rbind (field "role" d) (fun r =>
      rbind (field "icon" d) (fun c =>
      rbind (field "system_prompt" d) (fun sp =>
      rbind (field "model" d) (fun m =>
      Ok {| id := i; name := n; persona_role := r; icon := c;
            system_prompt := sp; model := m |}))))))
  | _ => Raise TypeError
  end.

(** What a [for] loop over a value iterates on. *)
Definition py_iter (v : pyval) : result (list pyval) :=
  match v with
  | PList l => Ok l
  | PDict d => Ok (map (fun kv => PStr (fst kv)) d)
  | PStr s => Ok (map (fun c => PStr [c]) s)
  | _ => Raise TypeError
  end.

Definition as_personas (v : pyval) : result (list Persona) :=
  rbind (py_iter v) (rmap as_persona).

Record Metadata : Type := {
  label_to_model : dict text;
  aggregate_rankings : list AggregateEntry
}.

(** The returned tuple; [metadata = None] is the empty dictionary. *)
Record CouncilResult : Type := {
  out_personas : pyval;
  out_stage1 : list Stage1Result;
  out_stage2 : list Stage2Result;
  out_stage3 : SynthesisResult;
  out_metadata : option Metadata
}.

Definition abort_result : SynthesisResult :=
  {| s3_model := txt "error";
     s3_response := txt "All models failed to respond. Please try again." |}.

Definition aggregate (stage2_results : list Stage2Result)
  (label_to_persona : dict text) : M (list AggregateEntry) :=
  enter OpAggregate ;;
  lift (calculate_aggregate_rankings stage2_results label_to_persona).

Definition run_full_council `{Environment} (user_query : text)
  : M CouncilResult :=
  personas <- generate_dynamic_personas user_query ;;
  council <- lift (as_personas personas) ;;
  stage1_results <- stage1_collect_responses user_query council ;;
  match stage1_results with
  | [] =>
      ret {| out_personas := personas;
             out_stage1 := [];
             out_stage2 := [];
             out_stage3 := abort_result;
             out_metadata := None |}
  | _ :: _ =>
      ranked <- stage2_collect_rankings user_query stage1_results ;;
      aggregate_rankings <-
        aggregate (stage2_results ranked) (label_to_persona ranked) ;;
      stage3_result <-
        stage3_synthesize_final user_query stage1_results
          (stage2_results ranked) ;;
      ret {| out_personas := personas;
             out_stage1 := stage1_results;
             out_stage2 := stage2_results ranked;
             out_stage3 := stage3_result;
             out_metadata :=
               Some {| label_to_model := label_to_persona ranked;
                       aggregate_rankings := aggregate_rankings |} |}
  end.

(** ** The configuration of [config.py] *)

Definition config_PERSONAS : dict (dict text) :=
  [ (txt "skeptic",
      [ (txt "name", txt "The Skeptic");
       (txt "role", txt "Critical Analyst");
       (txt "icon", [0x1f9d0]%N);
       (txt "style", txt "critical, questioning, looking for flaws");
       (txt "model", txt "anthropic/claude-sonnet-4.5");
       (txt "system_prompt", txt "You are The Skeptic. Your role is to critically analyze every claim. Look for logical fallacies, missing evidence, and potential downsides. Do not just agree; challenge the premise and ask tough questions.") ]);
    (txt "visionary",
      [ (txt "name", txt "The Visionary");
       (txt "role", txt "Future Thinker");
       (txt "icon", [0x1f680]%N);
       (txt "style", txt "optimistic, forward-looking, creative");
       (txt "model", txt "openai/gpt-5.1");
       (txt "system_prompt", txt "You are The Visionary. Your role is to look at the big picture and future possibilities. Focus on innovation, potential impact, and creative solutions. Be optimistic and inspiring.") ]);
    (txt "pragmatist",
      [ (txt "name", txt "The Pragmatist");
       (txt "role", txt "Practical Implementer");
       (txt "icon", [0x1f6e0; 0xfe0f]%N);
       (txt "style", txt "practical, realistic, actionable");
       (txt "model", txt "google/gemini-3-pro-preview");
       (txt "system_prompt", txt "You are The Pragmatist. Your role is to focus on what is actually doable. Prioritize practical steps, feasibility, and real-world constraints. Avoid pie-in-the-sky ideas if they aren't actionable.") ]);
    (txt "historian",
      [ (txt "name", txt "The Historian");
       (txt "role", txt "Context Provider");
       (txt "icon", [0x1f4da]%N);
       (txt "style", txt "contextual, analytical, drawing from history");
       (txt "model", txt "anthropic/claude-sonnet-4.5");
       (txt "system_prompt", txt "You are The Historian. Your role is to provide context and historical precedents. Analyze the current situation by comparing it to past events and trends. What can we learn from history?") ]);
    (txt "devil_advocate",
      [ (txt "name", txt "Devil's Advocate");
       (txt "role", txt "Contrarian");
       (txt "icon", [0x1f608]%N);
       (txt "style", txt "contrarian, challenging, alternative");
       (txt "model", txt "x-ai/grok-4");
       (txt "system_prompt", txt "You are the Devil's Advocate. Your role is to argue the opposite of the common consensus. Even if you agree, find a way to represent the opposing view to ensure a robust debate.") ]) ].

Definition config_DEFAULT_PERSONAS : list text :=
  [txt "skeptic"; txt "visionary"; txt "pragmatist"].

Definition config_CHAIRMAN_MODEL : text := txt "google/gemini-3-pro-preview".

(** ** An environment for examples

    The configuration of [config.py], a decoder that knows the empty JSON
    object only, and model queries answered from a script: the [n]-th
    query gets the [n]-th entry, a query beyond the script fails. *)

Definition decode_empty_object (t : text) : option pyval :=
  if text_eqb t (txt "{}") then Some (PDict []) else None.

Definition scripted (script : list (option Response)) (n : nat)
  (model : text) (messages : list Message) : option Response :=
  nth n script None.

Definition example_environment (script : list (option Response))
  : Environment :=
  {| PERSONAS := config_PERSONAS;
     DEFAULT_PERSONAS := config_DEFAULT_PERSONAS;
     CHAIRMAN_MODEL := config_CHAIRMAN_MODEL;
     json_loads := decode_empty_object;
     reply := scripted script |}.

Definition says (s : text) : option Response :=
  Some {| reply_content := Some s |}.

(** ** Specification-side notions *)

(** The outcomes of the queries of a batch whose first query is the
    [n]-th of the turn. *)
Fixpoint outcomes `{Environment} (n : nat) (tasks : list (text * list Message))
  : list (option Response) :=
  match tasks with
  | [] => []
  | (model, messages) :: rest =>
      reply n model messages :: outcomes (S n) rest
  end.

Definition query_events (tasks : list (text * list Message)) : list event :=
  map (fun t => Query (fst t) (snd t)) tasks.

Definition succeeded {A} (pr : A * option Response) : bool :=
  match snd pr with
  | Some _ => true
  | None => false
  end.

(** The tasks Stage 1 dispatches. *)
Definition stage1_tasks (user_query : text) (personas : list Persona)
  : list (text * list Message) :=
  map (fun persona =>
         (model persona,
          [system_message (system_prompt persona); user_message user_query]))
      personas.

(** A Stage 1 result is made from a persona and the reply to its query. *)
Definition made_from (r : Stage1Result) (pr : Persona * option Response)
  : Prop :=
  s1_persona_id r = id (fst pr) /\
  s1_persona_name r = name (fst pr) /\
  s1_persona_role r = persona_role (fst pr) /\
  s1_persona_icon r = icon (fst pr) /\
  s1_model r = model (fst pr) /\
  exists reply, snd pr = Some reply /\ response r = content_or_empty reply.

(** A Stage 2 result is made from a ranker's name and the reply to its
    query; its parsed ranking is the parse of the reply's text. *)
Definition ranked_from (r : Stage2Result) (pr : text * option Response)
  : Prop :=
  s2_model r = fst pr /\
  exists reply,
    snd pr = Some reply /\ ranking r = content_or_empty reply /\
    parse_ranking_from_text (ranking r) = Ok (parsed_ranking r).

(** The tasks Stage 2 dispatches: one prompt, to each survivor's model. *)
Definition stage2_tasks (user_query : text) (labels : list char)
  (stage1_results : list Stage1Result) : list (text * list Message) :=
  map (fun r =>
         (s1_model r,
          [user_message
             (ranking_prompt user_query
                (responses_text labels stage1_results))]))
      stage1_results.

Definition alphabet : text := txt "ABCDEFGHIJKLMNOPQRSTUVWXYZ".

(** The code points [65], [66], ... of the first [n] labels. *)
Definition letters (n : nat) : list char :=
  map (fun i => (65 + N.of_nat i)%N) (seq 0 n).

(** Aggregation that reads the stored [parsed_ranking] fields instead of
    parsing the ranking texts again. *)
Fixpoint collect_parsed (stage2_results : list Stage2Result)
  (label_to_persona : dict text) (model_positions : dict (list Z))
  : dict (list Z) :=
  match stage2_results with
  | [] => model_positions
  | r :: rest =>
      collect_parsed rest label_to_persona
        (record_ranking label_to_persona 1 (parsed_ranking r) model_positions)
  end.

Definition aggregate_parsed (stage2_results : list Stage2Result)
  (label_to_persona : dict text) : list AggregateEntry :=
  sort_by_average_rank
    (flat_map aggregate_entry
       (collect_parsed stage2_results label_to_persona [])).

Definition parsed_is_parse (r : Stage2Result) : Prop :=
  parse_ranking_from_text (ranking r) = Ok (parsed_ranking r).

(** Three Stage 1 results for examples. *)
Definition example_result (persona_name model answer : string) : Stage1Result :=
  {| s1_persona_id := txt persona_name;
     s1_persona_name := txt persona_name;
     s1_persona_role := txt "role";
     s1_persona_icon := txt "*";
     s1_model := txt model;
     response := txt answer |}.

Definition example_stage1 : list Stage1Result :=
  [example_result "Historian" "model-h" "It happened before.";
   example_result "Visionary" "model-v" "It will happen.";
   example_result "Skeptic" "model-s" "Did it happen?"].

(** The planner's query, its value for a given reply, and the events of
    the planner and of Stage 3. *)
Definition planner_query `{Environment} (user_query : text) : event :=
  Query CHAIRMAN_MODEL [user_message (planner_prompt user_query)].

Definition planner_value `{Environment} (response : option Response) : pyval :=
  match truthy_content response with
  | None => fallback
  | Some content =>
      match decode_personas content with
      | Ok personas => personas
      | Raise _ => fallback
      end
  end.

Definition chairman_messages (user_query : text)
  (stage1_results : list Stage1Result) (stage2_results : list Stage2Result)
  : list Message :=
  [user_message
     (chairman_prompt user_query (stage1_text stage1_results)
        (stage2_text stage2_results))].

Definition synthesis (response : option Response) : SynthesisResult :=
  match response with
  | None => synthesis_fallback
  | Some r =>
      {| s3_model := txt "Chairman"; s3_response := content_or_empty r |}
  end.


(** A whole turn for examples: the planner gets no reply, the three
    default personas answer, and the given replies follow. *)
Definition example_turn (later : list (option Response)) : Environment :=
  example_environment
    ([None; says (txt "It happened before."); says (txt "It will happen.");
      says (txt "Did it happen?")] ++ later).

(** Ranking texts in which the marker occurs twice: first in a sentence
    that announces the ranking, then at the head of the ranking. *)
Definition announced_numbered : text * text :=
  (txt "I give my ",
   txt " section last." ++ newline ++ newline
   ++ marker ++ newline
   ++ txt "1. Response B" ++ newline ++ txt "2. Response A").

Definition announced_plain : text * text :=
  (txt "The ",
   txt " is that Response A is best. "
   ++ marker ++ txt " Response A, then Response B").

(** ** The aggregation, as the spec words it *)

(** A ranker's parsed order. *)
Definition parsed_order (r : Stage2Result) : list text :=
  match parse_ranking_from_text (ranking r) with
  | Ok order => order
  | Raise _ => []
  end.

(** The positions a persona gets from one order whose first label has the
    given position: the labels that resolve to another persona, or to
    none, give nothing. *)
Fixpoint positions_in (label_to_persona : dict text) (persona : text)
  (position : Z) (order : list text) : list Z :=
  match order with
  | [] => []
  | label :: rest =>
      let later :=
        positions_in label_to_persona persona (position + 1) rest in
      match dict_get label label_to_persona with
      | Some name => if text_eqb name persona then position :: later else later
      | None => later
      end
  end.

(** The positions recorded for a persona, over all rankers. *)
Definition recorded (stage2_results : list Stage2Result)
  (label_to_persona : dict text) (persona : text) : list Z :=
  flat_map (fun r => positions_in label_to_persona persona 1 (parsed_order r))
    stage2_results.



Definition keys {V} (d : dict V) : list text := map fst d.

(** The invariant of the aggregation's dictionary: no key twice, no empty
    list of positions. *)
Definition well_formed (model_positions : dict (list Z)) : Prop :=
  NoDup (keys model_positions) /\
  Forall (fun kv => snd kv <> []) model_positions.

(** A continuation is sound for a set of strings when each of its matches
    is a prefix of the input that belongs to the set. *)
Definition sound (k : text -> option nat) (L : text -> Prop) : Prop :=
  forall s n, k s = Some n ->
    exists m rest, s = m ++ rest /\ length m = n /\ L m.



(** The aggregation example of the spec: two rankers, with parsed orders
    [A, B] and [B, A]. *)
Definition example_mapping : dict text :=
  [(txt "Response A", txt "Historian"); (txt "Response B", txt "Visionary")].

Definition example_ranker (ranker : string) (first second : string)
  : Stage2Result :=
  let t :=
    marker ++ newline ++ txt "1. " ++ txt first ++ newline
    ++ txt "2. " ++ txt second in
  {| s2_model := txt ranker; ranking := t; parsed_ranking := [] |}.

Definition example_rankers : list Stage2Result :=
  [example_ranker "Historian" "Response A" "Response B";
   example_ranker "Visionary" "Response B" "Response A"].

(** The float [1.5]. *)
Definition one_and_a_half : float := {| mant := 3 * 2 ^ 51; expo := -52 |}.

(** A continuation is complete for a set of strings when it finds a
    match wherever a string of the set starts the input. *)
Definition complete (k : text -> option nat) (L : text -> Prop) : Prop :=
  forall m rest, L m -> k (m ++ rest) <> None.

(** A string of the pattern starts the text. *)
Definition matches_at (r : regex) (s : text) : Prop :=
  exists m rest, s = m ++ rest /\ lang r m.

(** The matches of a pattern in a text, scanning from the left: a
    position is passed over only if no match starts there, and the scan
    goes on after each match. *)
Inductive leftmost (r : regex) : text -> list text -> Prop :=
| leftmost_end : leftmost r [] []
| leftmost_skip (c : char) (s : text) (ms : list text) :
    ~ matches_at r (c :: s) -> leftmost r s ms -> leftmost r (c :: s) ms
| leftmost_match (m s : text) (ms : list text) :
    m <> [] -> lang r m -> leftmost r s ms -> leftmost r (m ++ s) (m :: ms).

(** At most one string of the pattern starts a given text. *)
Definition deterministic (r : regex) : Prop :=
  forall m m' rest rest',
    m ++ rest = m' ++ rest' -> lang r m -> lang r m' -> m = m'.

(** The strings of a list occur in a text one after the other, without
    overlap. *)
Inductive in_order : text -> list text -> Prop :=
| in_order_end (s : text) : in_order s []
| in_order_skip (c : char) (s : text) (ms : list text) :
    in_order s ms -> in_order (c :: s) ms
| in_order_match (m s : text) (ms : list text) :
    in_order s ms -> in_order (m ++ s) (m :: ms).

(** The text that follows the marker, in the texts of the spec's tests. *)
Definition spec_example_text : text :=
  txt "..." ++ newline ++ marker ++ newline ++ txt "1. Response C" ++ newline
  ++ txt "2. Response A" ++ newline ++ txt "3. Response B".

(** ** Conversation title *)

Definition title_prompt (user_query : text) : text :=
  quoted "Generate a very short title (3-5 words maximum) that summarizes the following question.
The title should be concise and descriptive. Do not use quotes or punctuation in the title.

Question: "
  ++ user_query
  ++ quoted "

Title:".

Fixpoint lstrip_chars (chars : list char) (s : text) : text :=
  match s with
  | c :: s' => if existsb (N.eqb c) chars then lstrip_chars chars s' else s
  | [] => []
  end.

(** [s.strip(chars)] *)
Definition strip_chars (chars : list char) (s : text) : text :=
  rev (lstrip_chars chars (rev (lstrip_chars chars s))).

(** The double and the single quote. *)
Definition quotes : list char := [34%N; 39%N].

Definition default_title : text := txt "New Conversation".

(** The clean-up of the reply's text. *)
Definition clean_title (content : text) : text :=
  let title := strip content in
  let title := strip_chars quotes title in
  if 50 <? length title then firstn 47 title ++ txt "..." else title.

(** The query's [timeout=30.0] bears on the outcome of the query only,
    which the environment gives. *)
Definition generate_conversation_title `{Environment} (user_query : text)
  : M text :=
  response <- query_model (txt "google/gemini-2.5-flash")
                [user_message (title_prompt user_query)] ;;
  match response with
  | None => ret default_title
  | Some r =>
      ret (clean_title
             match reply_content r with
             | Some c => c
             | None => default_title
             end)
  end.

(** ** Direct reply *)

(** A stored message of a conversation: its role and, for a user's
    message, its content. *)
Record HistoryMessage : Type := {
  msg_role : text;
  msg_content : option text
}.

(** The loop over [history[-5:]]. *)
Fixpoint history_messages (history : list HistoryMessage)
  : result (list Message) :=
  match history with
  | [] => Ok []
  | msg :: rest =>
      if text_eqb (msg_role msg) (txt "user") then
        match msg_content msg with
        | Some c =>
            rbind (history_messages rest) (fun ms => Ok (user_message c :: ms))
        | None => Raise KeyError
        end
      else history_messages rest
  end.

(** [l[-n:]] for [n > 0] *)
Definition last_n {A} (n : nat) (l : list A) : list A :=
  skipn (length l - n) l.

Record DirectReply : Type := {
  dr_response : text;
  dr_persona_name : text;
  dr_persona_role : text;
  dr_persona_icon : text;
  dr_model : text
}.

Definition speechless : text := txt "I'm speechless.".

Definition direct_messages (persona : Persona) (recent : list Message)
  (user_input : text) : list Message :=
  system_message (system_prompt persona) :: recent ++ [user_message user_input].

(** A reply is a non-empty dictionary, so [if response] holds for it;
    without the key ['content'], [response["content"]] raises. *)
Definition reply_text (response : option Response) : result text :=
  match response with
  | None => Ok speechless
  | Some r =>
      match reply_content r with
      | Some c => Ok c
      | None => Raise KeyError
      end
  end.

Definition generate_direct_reply `{Environment} (persona : Persona)
  (history : list HistoryMessage) (user_input : text) : M DirectReply :=
  recent <- lift (history_messages (last_n 5 history)) ;;
  response <- query_model (model persona)
                (direct_messages persona recent user_input) ;;
  text <- lift (reply_text response) ;;
  ret {| dr_response := text;
         dr_persona_name := name persona;
         dr_persona_role := persona_role persona;
         dr_persona_icon := icon persona;
         dr_model := model persona |}.

(** ** Trimming, for the properties of the two [strip]s *)

Fixpoint drop_while (p : char -> bool) (s : text) : text :=
  match s with
  | c :: s' => if p c then drop_while p s' else s
  | [] => []
  end.

Definition trim (p : char -> bool) (s : text) : text :=
  rev (drop_while p (rev (drop_while p s))).

Definition is_quote (c : char) : bool := existsb (N.eqb c) quotes.

(** The first and the last character of a text, if any, are outside a
    class. *)
Definition ends_outside (p : char -> bool) (s : text) : Prop :=
  (forall c, hd_error s = Some c -> p c = false) /\
  (forall c, hd_error (rev s) = Some c -> p c = false).

(** The title's query. *)
Definition title_query (user_query : text) : event :=
  Query (txt "google/gemini-2.5-flash") [user_message (title_prompt user_query)].

(** The text of a reply with content. *)
Definition has_content (response : option Response) (c : text) : Prop :=
  exists r, response = Some r /\ reply_content r = Some c.

(** The contents of the user's messages of a history, in order. *)
Definition user_contents (history : list HistoryMessage) : list text :=
  flat_map
    (fun msg =>
       if text_eqb (msg_role msg) (txt "user") then
         match msg_content msg with
         | Some c => [c]
         | None => []
         end
       else [])
    history.

(** Every user's message of a history has a content. *)
Definition users_have_content (history : list HistoryMessage) : Prop :=
  Forall (fun msg => msg_role msg = txt "user" -> msg_content msg <> None)
    history.

(** The messages a direct reply sends. *)
Definition direct_query (persona : Persona) (history : list HistoryMessage)
  (user_input : text) : list Message :=
  direct_messages persona
    (map user_message (user_contents (last_n 5 history))) user_input.

Definition user_turn (c : text) : HistoryMessage :=
  {| msg_role := txt "user"; msg_content := Some c |}.

Definition assistant_turn : HistoryMessage :=
  {| msg_role := txt "assistant"; msg_content := None |}.

Definition example_persona : Persona :=
  {| id := txt "skeptic"; name := txt "The Skeptic";
     persona_role := txt "Critical Analyst"; icon := txt "?";
     system_prompt := txt "You are The Skeptic."; model := txt "model-s" |}.

Definition example_history : list HistoryMessage :=
  [user_turn (txt "one"); assistant_turn; user_turn (txt "two");
   assistant_turn; user_turn (txt "three"); assistant_turn;
   user_turn (txt "But why?")].

(** The operations a trace entered, in order. *)
Definition operations_of (w : world) : list operation :=
  flat_map (fun e => match e with Enter op => [op] | Query _ _ => [] end) w.

Definition is_some {A} (o : option A) : bool :=
  match o with
  | Some _ => true
  | None => false
  end.

(** A reply that wraps [body] in a JSON code fence. *)
Definition backquote : char := 96%N.

Definition free_of (c : char) (s : text) : bool := negb (existsb (N.eqb c) s).

Definition fenced (pre body rest : text) : text :=
  pre ++ txt "```json" ++ body ++ txt "```" ++ rest.

(** [data.get("personas", [])] on a decoded object. *)
Definition personas_of (d : list (text * pyval)) : pyval :=
  match dict_get (txt "personas") d with
  | Some v => v
  | None => PList []
  end.

(** Two Stage 1 results with the same text by different personas. *)
Definition example_answer (persona model : string) : Stage1Result :=
  {| s1_persona_id := txt persona; s1_persona_name := txt persona;
     s1_persona_role := txt "Analyst"; s1_persona_icon := txt "?";
     s1_model := txt model; response := txt "It depends." |}.

(** The personas a parsed order names: those of its labels that the
    mapping resolves, in order; and the personas named over all rankers,
    in the order in which the aggregation meets them. *)
Definition named_in (label_to_persona : dict text) (order : list text)
  : list text :=
  flat_map
    (fun label =>
       match dict_get label label_to_persona with
       | Some persona => [persona]
       | None => []
       end)
    order.

Definition named (stage2_results : list Stage2Result)
  (label_to_persona : dict text) : list text :=
  flat_map (fun r => named_in label_to_persona (parsed_order r))
    stage2_results.

(** An [a] stands in [l] before a [b]. *)
Fixpoint precedes {A} (a b : A) (l : list A) : Prop :=
  match l with
  | [] => False
  | x :: l' => (x = a /\ In b l') \/ precedes a b l'
  end.

(** The keys are the personas seen so far, in the order in which each
    was first seen. *)
Definition first_seen_order (ks seen : list text) : Prop :=
  (forall p, In p ks <-> In p seen) /\
  forall p q, precedes p q ks ->
    exists l1 l2, seen = l1 ++ p :: l2 /\ ~ In q l1.

(** * Properties *)

Unset Implicit Arguments.

(** ** Text *)

Lemma text_eqb_eq (a b : text) : text_eqb a b = true <-> a = b.
Proof.
  revert b; induction a as [|x a IH]; intros [|y b]; simpl;
    try (split; [discriminate | congruence]); [tauto|].
  rewrite andb_true_iff, N.eqb_eq, IH. split.
  - intros [-> ->]; reflexivity.
  - intros E; injection E; auto.
Qed.

Lemma text_eqb_refl (a : text) : text_eqb a a = true.
Proof. apply text_eqb_eq; reflexivity. Qed.

Lemma text_eqb_neq (a b : text) : text_eqb a b = false <-> a <> b.
Proof.
  rewrite <- text_eqb_eq. destruct (text_eqb a b); split; congruence.
Qed.

Lemma starts_with_app (p s : text) : starts_with p (p ++ s) = true.
Proof.
  induction p as [|a p IH]; simpl; [reflexivity|].
  rewrite N.eqb_refl; exact IH.
Qed.

Lemma starts_with_inv (p s : text) :
  starts_with p s = true -> exists r, s = p ++ r.
Proof.
  revert s; induction p as [|a p IH]; intros s H; simpl in *.
  - exists s; reflexivity.
  - destruct s as [|b s]; [discriminate|].
    apply andb_true_iff in H as [E H]. apply N.eqb_eq in E; subst b.
    destruct (IH _ H) as [r ->]. exists r; reflexivity.
Qed.

Lemma contains_head (sub s : text) :
  starts_with sub s = true -> contains sub s = true.
Proof. intros H; destruct s; simpl; rewrite H; reflexivity. Qed.

Lemma contains_intro (sub a b : text) : contains sub (a ++ sub ++ b) = true.
Proof.
  induction a as [|x a IH]; simpl app.
  - apply contains_head, starts_with_app.
  - simpl. rewrite IH; apply orb_true_r.
Qed.

Lemma contains_inv (sub s : text) :
  contains sub s = true -> exists a b, s = a ++ sub ++ b.
Proof.
  induction s as [|x s IH]; simpl; intros H.
  - rewrite orb_false_r in H. destruct (starts_with_inv _ _ H) as [r ->].
    exists [], r; reflexivity.
  - apply orb_true_iff in H as [H|H].
    + destruct (starts_with_inv _ _ H) as [r ->]. exists [], r; reflexivity.
    + destruct (IH H) as (a & b & ->). exists (x :: a), b; reflexivity.
Qed.

Lemma contains_false_head (sub s : text) :
  contains sub s = false -> starts_with sub s = false.
Proof.
  destruct s; simpl; intros H; apply orb_false_iff in H; tauto.
Qed.

Lemma contains_false_tail (sub : text) (x : char) (s : text) :
  contains sub (x :: s) = false -> contains sub s = false.
Proof. simpl; intros H; apply orb_false_iff in H; tauto. Qed.

(** A pattern that starts inside [u] and reaches beyond it continues at
    the head of what follows. *)
Lemma starts_with_straddle (p u s : text) :
  starts_with p (u ++ s) = true -> length u < length p ->
  exists p2, p = u ++ p2 /\ p2 <> [] /\ starts_with p2 s = true.
Proof.
  revert p; induction u as [|c u IH]; intros p H L; simpl in *.
  - exists p; repeat split; auto. destruct p; simpl in L; [lia|discriminate].
  - destruct p as [|a p]; simpl in *; [lia|].
    apply andb_true_iff in H as [E H]. apply N.eqb_eq in E; subst a.
    destruct (IH p H ltac:(lia)) as (p2 & -> & N & H2).
    exists p2; auto.
Qed.

Lemma starts_with_within (p u s : text) :
  starts_with p (u ++ s) = true -> length p <= length u ->
  starts_with p u = true.
Proof.
  revert p; induction u as [|c u IH]; intros p H L; simpl in *.
  - destruct p; simpl in *; [reflexivity|lia].
  - destruct p as [|a p]; simpl in *; [reflexivity|].
    apply andb_true_iff in H as [E H]. rewrite E; simpl.
    apply IH; [exact H|lia].
Qed.

Lemma head_unique_no_straddle (sep u s : text) :
  head_unique sep = true -> u <> [] -> contains sep u = false ->
  starts_with sep (u ++ sep ++ s) = false.
Proof.
  intros HU NE NC.
  destruct (starts_with sep (u ++ sep ++ s)) eqn:H; [|reflexivity].
  exfalso. destruct (le_lt_dec (length sep) (length u)) as [L|L].
  - apply starts_with_within in H; [|exact L].
    apply contains_false_head in NC. congruence.
  - destruct (starts_with_straddle _ _ _ H L) as (p2 & E & N2 & H2).
    destruct sep as [|c tl]; [discriminate|].
    destruct u as [|c' u]; [congruence|].
    simpl in E. injection E as Ec E. subst c'.
    destruct p2 as [|d p2]; [congruence|].
    simpl in H2. apply andb_true_iff in H2 as [Ed _].
    apply N.eqb_eq in Ed; subst d.
    simpl in HU. apply negb_true_iff in HU.
    assert (existsb (N.eqb c) tl = true); [|congruence].
    apply existsb_exists. exists c; split; [|apply N.eqb_refl].
    rewrite E. apply in_or_app; right; left; reflexivity.
Qed.

(** ** [split] *)

Lemma split_go_cur (sep : text) (s : text) :
  forall skip cur, exists x xs,
    split_go sep skip [] s = x :: xs /\
    split_go sep skip cur s = (rev cur ++ x) :: xs.
Proof.
  induction s as [|c s IH]; intros skip cur; simpl.
  - exists [], []. rewrite app_nil_r; auto.
  - destruct skip as [|k]; [|apply IH].
    destruct (starts_with sep (c :: s)).
    + exists [], (split_go sep (length sep - 1) [] s).
      rewrite app_nil_r; auto.
    + destruct (IH 0 [c]) as (x & xs & E1 & E2).
      destruct (IH 0 (c :: cur)) as (x' & xs' & E1' & E2').
      rewrite E1 in E1'; injection E1' as <- <-.
      exists (c :: x), xs. rewrite E2, E2'. simpl.
      rewrite <- app_assoc; auto.
Qed.

Lemma split_go_skip (sep d s cur : text) :
  split_go sep (length d) cur (d ++ s) = split_go sep 0 cur s.
Proof. induction d as [|c d IH]; simpl; [reflexivity|exact IH]. Qed.

Lemma split_none (sep s : text) :
  contains sep s = false -> split sep s = [s].
Proof.
  unfold split. induction s as [|c s IH]; intros H; simpl; [reflexivity|].
  rewrite (contains_false_head _ _ H).
  destruct (split_go_cur sep s 0 [c]) as (x & xs & E1 & E2).
  rewrite E2. rewrite IH in E1 by (eapply contains_false_tail; eauto).
  injection E1 as <- <-. reflexivity.
Qed.

Lemma split_sep_head (sep s : text) :
  sep <> [] -> split sep (sep ++ s) = [] :: split sep s.
Proof.
  unfold split. destruct sep as [|c tl]; [congruence|]; intros _.
  change ((c :: tl) ++ s) with (c :: tl ++ s).
  cbn [split_go]. change (c :: tl ++ s) with ((c :: tl) ++ s).
  rewrite starts_with_app.
  replace (length (c :: tl) - 1) with (length tl) by (simpl; lia).
  rewrite split_go_skip. reflexivity.
Qed.

Lemma split_first (sep pre s : text) :
  head_unique sep = true -> contains sep pre = false ->
  split sep (pre ++ sep ++ s) = pre :: split sep s.
Proof.
  intros HU. induction pre as [|c pre IH]; intros NC.
  - simpl app. apply split_sep_head. destruct sep; [discriminate|congruence].
  - pose proof (head_unique_no_straddle sep (c :: pre) s HU
                  ltac:(discriminate) NC) as NS.
    unfold split in *. simpl app in *. cbn [split_go]. rewrite NS.
    destruct (split_go_cur sep (pre ++ sep ++ s) 0 [c]) as (x & xs & E1 & E2).
    rewrite E2. rewrite IH in E1 by (eapply contains_false_tail; eauto).
    injection E1 as <- <-. reflexivity.
Qed.

(** ** The matcher *)

Lemma one_sound (p : char -> bool) k L :
  sound k L ->
  sound (one p k) (fun m => exists c m', m = c :: m' /\ p c = true /\ L m').
Proof.
  intros Hk [|c s] n H; simpl in H; [discriminate|].
  destruct (p c) eqn:Pc; [|discriminate].
  destruct (k s) as [n'|] eqn:Ks; [|discriminate].
  injection H as <-. destruct (Hk _ _ Ks) as (m & rest & -> & <- & Lm).
  exists (c :: m), rest. repeat split. exists c, m; auto.
Qed.

Lemma star_sound (p : char -> bool) k L :
  sound k L ->
  sound (star p k)
    (fun m => exists cs m', m = cs ++ m' /\ forallb p cs = true /\ L m').
Proof.
  intros Hk s. induction s as [|c s IH]; intros n H; simpl in H.
  - destruct (Hk _ _ H) as (m & rest & E & <- & Lm).
    exists m, rest. repeat split; auto. exists [], m; auto.
  - assert (K : k (c :: s) = Some n ->
                exists m rest, c :: s = m ++ rest /\ length m = n /\
                  exists cs m', m = cs ++ m' /\ forallb p cs = true /\ L m').
    { intros Kn. destruct (Hk _ _ Kn) as (m & rest & E & <- & Lm).
      exists m, rest. repeat split; auto. exists [], m; auto. }
    destruct (p c) eqn:Pc; [|auto].
    destruct (star p k s) as [n'|] eqn:Ss; [|auto].
    injection H as <-.
    destruct (IH _ eq_refl) as (m & rest & -> & <- & cs & m' & -> & F & Lm).
    exists (c :: cs ++ m'), rest. repeat split.
    exists (c :: cs), m'. simpl. rewrite Pc, F. auto.
Qed.

Lemma match_here_sound (r : regex) : sound (match_here r) (lang r).
Proof.
  induction r as [|[c|p|p|p] r IH]; simpl.
  - intros s n H; injection H as <-. exists [], s; auto.
  - intros s n H. destruct (one_sound (N.eqb c) _ _ IH _ _ H)
      as (m & rest & -> & <- & c' & m' & -> & E & Lm).
    apply N.eqb_eq in E; subst c'. exists (c :: m'), rest.
    repeat split. exists m'; auto.
  - apply one_sound, IH.
  - apply star_sound, IH.
  - intros s n H.
    destruct (one_sound p _ _ (star_sound p _ _ IH) _ _ H)
      as (m & rest & -> & <- & c & m' & -> & Pc & cs & m'' & -> & F & Lm).
    exists (c :: cs ++ m''), rest. repeat split. exists c, cs, m''; auto.
Qed.

Lemma one_complete (p : char -> bool) k L :
  complete k L ->
  complete (one p k) (fun m => exists c m', m = c :: m' /\ p c = true /\ L m').
Proof.
  intros Hk m rest (c & m' & -> & Pc & Lm). simpl. rewrite Pc.
  specialize (Hk m' rest Lm). destruct (k (m' ++ rest)); [discriminate|tauto].
Qed.

Lemma star_complete (p : char -> bool) k L :
  complete k L ->
  complete (star p k)
    (fun m => exists cs m', m = cs ++ m' /\ forallb p cs = true /\ L m').
Proof.
  intros Hk m rest (cs & m' & -> & F & Lm). rewrite <- app_assoc.
  induction cs as [|c cs IH]; simpl.
  - specialize (Hk m' rest Lm). destruct (m' ++ rest) as [|c s]; simpl;
      [exact Hk|].
    destruct (p c); [|exact Hk].
    destruct (star p k s); [discriminate|exact Hk].
  - simpl in F. apply andb_true_iff in F as [Pc F]. rewrite Pc.
    specialize (IH F). destruct (star p k (cs ++ m' ++ rest));
      [discriminate|tauto].
Qed.

Lemma match_here_complete (r : regex) : complete (match_here r) (lang r).
Proof.
  induction r as [|[c|p|p|p] r IH]; simpl.
  - intros m rest _. discriminate.
  - intros m rest (m' & -> & Lm).
    apply (one_complete (N.eqb c) _ _ IH). exists c, m'.
    rewrite N.eqb_refl. auto.
  - apply one_complete, IH.
  - apply star_complete, IH.
  - intros m rest (c & cs & m' & -> & Pc & F & Lm).
    apply (one_complete p _ _ (star_complete p _ _ IH)).
    exists c, (cs ++ m'). repeat split; auto. exists cs, m'; auto.
Qed.

(** The matcher finds a match exactly where one starts. *)
Lemma match_here_none (r : regex) (s : text) :
  match_here r s = None <-> ~ matches_at r s.
Proof.
  split.
  - intros E (m & rest & -> & Lm). apply (match_here_complete r m rest Lm E).
  - intros N. destruct (match_here r s) as [n|] eqn:E; [|reflexivity].
    destruct N. destruct (match_here_sound r _ _ E) as (m & rest & -> & _ & Lm).
    exists m, rest; auto.
Qed.

Lemma match_here_firstn (r : regex) (s : text) (n : nat) :
  match_here r s = Some n -> lang r (firstn n s).
Proof.
  intros H. destruct (match_here_sound r _ _ H) as (m & rest & -> & <- & Lm).
  rewrite firstn_app, Nat.sub_diag, firstn_all. simpl.
  rewrite app_nil_r. exact Lm.
Qed.

Lemma findall_go_in (r : regex) (s : text) :
  forall skip m, In m (findall_go r skip s) -> lang r m.
Proof.
  induction s as [|c s IH]; intros skip m H; simpl in H; [contradiction|].
  destruct skip as [|k]; [|eauto].
  destruct (match_here r (c :: s)) as [n|] eqn:E; [|eauto].
  destruct H as [<-|H]; [|eauto]. apply match_here_firstn, E.
Qed.

Lemma findall_in (r : regex) (s m : text) : In m (findall r s) -> lang r m.
Proof. apply findall_go_in. Qed.

(** ** The two patterns *)

Lemma lang_label (m : text) :
  lang label_re m <-> exists L, is_upper L = true /\ m = response_label L.
Proof.
  unfold label_re, response_label; simpl. split.
  - intros (m1 & -> & m2 & -> & m3 & -> & m4 & -> & m5 & -> & m6 & ->
            & m7 & -> & m8 & -> & m9 & -> & L & m10 & -> & U & ->).
    exists L; auto.
  - intros (L & U & ->). repeat (eexists; split; [reflexivity|]).
    exists L, []; auto.
Qed.

Lemma lang_numbered (m : text) :
  lang numbered_re m ->
  exists d ds ws L,
    m = (d :: ds) ++ 46%N :: ws ++ response_label L /\
    forallb is_digit (d :: ds) = true /\ forallb is_space ws = true /\
    is_upper L = true.
Proof.
  unfold numbered_re. cbn [lang app].
  intros (d & ds & m1 & -> & Dd & Dds & m2 & -> & ws & m3 & -> & Ws & Lm).
  apply lang_label in Lm as (L & U & ->).
  exists d, ds, ws, L. simpl. rewrite Dd, Dds. auto.
Qed.

Lemma label_portion_numbered (pre : text) (L : char) :
  label_portion (pre ++ response_label L) = response_label L.
Proof.
  unfold label_portion. rewrite length_app.
  replace (length pre + length (response_label L) - 10) with (length pre)
    by (unfold response_label; simpl; lia).
  rewrite skipn_app, Nat.sub_diag, skipn_all. reflexivity.
Qed.

Lemma search_label_skip (c : char) (s : text) :
  c <> 82%N -> search label_re (c :: s) = search label_re s.
Proof.
  intros N. cbn [search]. unfold label_re at 1. simpl.
  destruct c as [|q]; [reflexivity|].
  destruct (82 =? q)%positive eqn:E; [|reflexivity].
  apply Pos.eqb_eq in E; subst q; congruence.
Qed.

Lemma search_label_prefix (pre s : text) :
  forallb (fun c => negb (c =? 82)%N) pre = true ->
  search label_re (pre ++ s) = search label_re s.
Proof.
  induction pre as [|c pre IH]; simpl; intros H; [reflexivity|].
  apply andb_true_iff in H as [Hc H]. apply negb_true_iff, N.eqb_neq in Hc.
  change (search label_re (c :: pre ++ s) = search label_re s).
  rewrite search_label_skip by exact Hc. auto.
Qed.

Lemma search_label_hit (L : char) (rest : text) :
  is_upper L = true ->
  search label_re (response_label L ++ rest) = Some (response_label L).
Proof.
  intros U. unfold response_label. simpl. rewrite U. reflexivity.
Qed.

Lemma forallb_impl {A} (p q : A -> bool) (l : list A) :
  (forall x, p x = true -> q x = true) ->
  forallb p l = true -> forallb q l = true.
Proof.
  intros I; induction l as [|x l IH]; simpl; [auto|].
  intros H; apply andb_true_iff in H as [Hx H].
  rewrite (I _ Hx), (IH H); reflexivity.
Qed.

Lemma digit_not_R (c : char) : is_digit c = true -> negb (c =? 82)%N = true.
Proof.
  intros D. destruct (N.eqb_spec c 82) as [->|]; [|reflexivity].
  vm_compute in D; discriminate.
Qed.

Lemma space_not_R (c : char) : is_space c = true -> negb (c =? 82)%N = true.
Proof.
  intros D. destruct (N.eqb_spec c 82) as [->|]; [|reflexivity].
  vm_compute in D; discriminate.
Qed.

(** [re.search] in a numbered match finds its label portion: no
    [AttributeError] arises. *)
Lemma numbered_group (m : text) :
  lang numbered_re m ->
  exists L, is_upper L = true /\ label_portion m = response_label L /\
            group (search label_re m) = Ok (label_portion m).
Proof.
  intros H. destruct (lang_numbered _ H) as (d & ds & ws & L & -> & D & W & U).
  exists L. split; [exact U|].
  replace ((d :: ds) ++ 46%N :: ws ++ response_label L)
    with (((d :: ds) ++ 46%N :: ws) ++ response_label L)
    by (rewrite <- app_assoc; reflexivity).
  rewrite label_portion_numbered. split; [reflexivity|].
  rewrite <- (app_nil_r (response_label L)) at 1.
  rewrite search_label_prefix.
  - rewrite search_label_hit by exact U. reflexivity.
  - rewrite forallb_app. apply andb_true_iff; split.
    + eapply forallb_impl; [apply digit_not_R|exact D].
    + simpl. eapply forallb_impl; [apply space_not_R|exact W].
Qed.

Lemma rmap_ok {A B} (f : A -> result B) (g : A -> B) (l : list A) :
  (forall x, In x l -> f x = Ok (g x)) -> rmap f l = Ok (map g l).
Proof.
  induction l as [|x l IH]; intros H; simpl; [reflexivity|].
  rewrite (H x) by (left; reflexivity). simpl.
  rewrite IH by (intros; apply H; right; assumption). reflexivity.
Qed.

Lemma numbered_groups (s : text) :
  rmap (fun m => group (search label_re m)) (findall numbered_re s)
  = Ok (map label_portion (findall numbered_re s)).
Proof.
  apply rmap_ok. intros m H. apply findall_in in H.
  destruct (numbered_group _ H) as (L & _ & _ & E). exact E.
Qed.

(** ** RankParser *)

Lemma starts_with_extend (p u v : text) :
  starts_with p u = true -> starts_with p (u ++ v) = true.
Proof.
  intros H. destruct (starts_with_inv _ _ H) as [r ->].
  rewrite <- app_assoc. apply starts_with_app.
Qed.

(** The first occurrence of a separator. *)
Lemma contains_first (sep s : text) :
  sep <> [] -> contains sep s = true ->
  exists pre rest, s = pre ++ sep ++ rest /\ contains sep pre = false.
Proof.
  intros NE. induction s as [|c s IH]; intros H.
  - simpl in H. rewrite orb_false_r in H.
    destruct sep; [congruence|discriminate].
  - destruct (starts_with sep (c :: s)) eqn:Hd.
    + destruct (starts_with_inv _ _ Hd) as [r E].
      exists [], r. split; [exact E|]. destruct sep; [congruence|reflexivity].
    + simpl in H. simpl in Hd. rewrite Hd in H. simpl in H.
      destruct (IH H) as (pre & rest & -> & NC).
      exists (c :: pre), rest. split; [reflexivity|].
      change (starts_with sep (c :: pre) || contains sep pre = false).
      rewrite NC, orb_false_r.
      destruct (starts_with sep (c :: pre)) eqn:Hp; [|reflexivity].
      apply (starts_with_extend _ _ (sep ++ rest)) in Hp.
      simpl in Hp. congruence.
Qed.

Lemma marker_head_unique : head_unique marker = true.
Proof. reflexivity. Qed.

(** The pieces of a text around its first marker: the second piece ends
    at the next marker, if there is one. *)
Lemma split_marker (pre mid rest : text) :
  contains marker pre = false -> contains marker mid = false ->
  rest = [] \/ starts_with marker rest = true ->
  exists more, split marker (pre ++ marker ++ mid ++ rest) = pre :: mid :: more.
Proof.
  intros Hp Hm Hr.
  rewrite (split_first _ _ _ marker_head_unique Hp).
  destruct Hr as [->|Hr].
  - rewrite app_nil_r, (split_none _ _ Hm). exists []; reflexivity.
  - destruct (starts_with_inv _ _ Hr) as [r ->].
    rewrite (split_first _ _ _ marker_head_unique Hm). eauto.
Qed.

Lemma parse_section (ranking_section : text) :
  match findall numbered_re ranking_section with
  | _ :: _ =>
      rmap (fun m => group (search label_re m))
        (findall numbered_re ranking_section)
  | [] => Ok (findall label_re ranking_section)
  end = Ok (section_ranking ranking_section).
Proof.
  unfold section_ranking.
  destruct (findall numbered_re ranking_section) eqn:E; [reflexivity|].
  rewrite <- E. apply numbered_groups.
Qed.

(** Without the marker the whole text is scanned for labels. *)
Lemma parse_marker_absent (t : text) :
  contains marker t = false ->
  parse_ranking_from_text t = Ok (findall label_re t).
Proof. unfold parse_ranking_from_text. intros ->. reflexivity. Qed.

(** With the marker the parser works on the text between the first
    marker and the next one (or the end of the text). *)
Lemma parse_marker_present (pre mid rest : text) :
  contains marker pre = false -> contains marker mid = false ->
  rest = [] \/ starts_with marker rest = true ->
  parse_ranking_from_text (pre ++ marker ++ mid ++ rest)
  = Ok (section_ranking mid).
Proof.
  intros Hp Hm Hr. unfold parse_ranking_from_text.
  rewrite contains_intro.
  destruct (split_marker pre mid rest Hp Hm Hr) as [more ->].
  cbn [length Nat.leb nth]. apply parse_section.
Qed.

(** Every text is in one of the two cases. *)
Lemma text_cases (t : text) :
  contains marker t = false \/
  exists pre mid rest,
    t = pre ++ marker ++ mid ++ rest /\
    contains marker pre = false /\ contains marker mid = false /\
    (rest = [] \/ starts_with marker rest = true).
Proof.
  destruct (contains marker t) eqn:C; [right|left; reflexivity].
  destruct (contains_first marker t ltac:(discriminate) C)
    as (pre & post & -> & Hp).
  exists pre. destruct (contains marker post) eqn:C2.
  - destruct (contains_first marker post ltac:(discriminate) C2)
      as (mid & rest & -> & Hm).
    exists mid, (marker ++ rest). repeat split; auto.
  - exists post, []. rewrite app_nil_r. auto.
Qed.

(** The parser never raises. *)
Lemma parse_total (t : text) : exists l, parse_ranking_from_text t = Ok l.
Proof.
  destruct (text_cases t) as [C|(pre & mid & rest & -> & Hp & Hm & Hr)].
  - rewrite parse_marker_absent by exact C. eauto.
  - rewrite parse_marker_present by assumption. eauto.
Qed.

(** The matches of [findall] are found in the text in the order in which
    it returns them. *)
Lemma findall_go_in_order (r : regex) (s : text) :
  forall skip, in_order (skipn skip s) (findall_go r skip s).
Proof.
  induction s as [|c s IH]; intros skip.
  - destruct skip; constructor.
  - destruct skip as [|k]; simpl; [|apply IH].
    destruct (match_here r (c :: s)) as [n|] eqn:E.
    + destruct (match_here_sound r _ _ E) as (m & rest & Es & L & _).
      destruct n as [|n].
      * change (in_order ([] ++ c :: s) ([] :: findall_go r 0 s)).
        apply in_order_match, in_order_skip, (IH 0).
      * rewrite <- (firstn_skipn (S n) (c :: s)) at 1.
        apply in_order_match. simpl. rewrite Nat.sub_0_r. apply IH.
    + apply in_order_skip, (IH 0).
Qed.

Lemma findall_in_order (r : regex) (s : text) : in_order s (findall r s).
Proof. apply (findall_go_in_order r s 0). Qed.

Lemma in_order_substring (s : text) (ms : list text) (m : text) :
  in_order s ms -> In m ms -> exists a b, s = a ++ m ++ b.
Proof.
  induction 1 as [s|c s ms _ IH|m' s ms _ IH]; intros I.
  - contradiction.
  - destruct (IH I) as (a & b & ->). exists (c :: a), b; reflexivity.
  - destruct I as [->|I].
    + exists [], s; reflexivity.
    + destruct (IH I) as (a & b & ->). exists (m' ++ a), b.
      rewrite <- app_assoc; reflexivity.
Qed.

(** [findall] returns the matches of the leftmost scan, for a pattern that
    matches no empty string. *)
Lemma findall_go_leftmost (r : regex) (s : text) :
  ~ lang r [] ->
  forall skip, skip <= length s ->
    leftmost r (skipn skip s) (findall_go r skip s).
Proof.
  intros NE. induction s as [|c s IH]; intros skip B.
  - destruct skip; constructor.
  - destruct skip as [|k]; simpl; [|apply IH; simpl in B; lia].
    destruct (match_here r (c :: s)) as [n|] eqn:E.
    + destruct (match_here_sound r _ _ E) as (m & rest & Es & L & Lm).
      destruct n as [|n].
      { destruct m; [contradiction|discriminate]. }
      rewrite <- (firstn_skipn (S n) (c :: s)) at 1.
      assert (Fm : firstn (S n) (c :: s) = m).
      { rewrite Es, <- L, firstn_app, Nat.sub_diag, firstn_all. simpl.
        apply app_nil_r. }
      apply leftmost_match.
      * rewrite Fm. destruct m; [discriminate|discriminate].
      * rewrite Fm. exact Lm.
      * simpl. rewrite Nat.sub_0_r. apply IH.
        assert (length (c :: s) = length m + length rest)
          by (rewrite Es; apply length_app).
        simpl in *. lia.
    + apply leftmost_skip; [apply match_here_none, E|apply (IH 0); lia].
Qed.

Lemma findall_leftmost (r : regex) (s : text) :
  ~ lang r [] -> leftmost r s (findall r s).
Proof. intros NE. apply (findall_go_leftmost r s NE 0). lia. Qed.

Lemma label_re_nonempty : ~ lang label_re [].
Proof. intros H. apply lang_label in H as (L & _ & E). discriminate. Qed.

Lemma numbered_re_nonempty : ~ lang numbered_re [].
Proof.
  intros H. apply lang_numbered in H as (d & ds & ws & L & E & _). discriminate.
Qed.

(** The leftmost scan of a deterministic pattern has one outcome. *)
Lemma leftmost_unique (r : regex) (s : text) (ms : list text) :
  deterministic r -> leftmost r s ms ->
  forall ms', leftmost r s ms' -> ms = ms'.
Proof.
  intros D. induction 1 as [|c s ms N H IH|m s ms NE L H IH]; intros ms' H2.
  - remember [] as t eqn:Et. destruct H2 as [|c s ms' N H2|m s ms' NE L H2].
    + reflexivity.
    + discriminate.
    + destruct m; [congruence|discriminate].
  - remember (c :: s) as t eqn:Et.
    destruct H2 as [|c' s' ms' N' H2|m s' ms' NE L H2].
    + discriminate.
    + injection Et as -> ->. apply IH, H2.
    + destruct N. exists m, s'. split; [congruence|exact L].
  - remember (m ++ s) as t eqn:Et.
    destruct H2 as [|c' s' ms' N' H2|m' s' ms' NE' L' H2].
    + destruct m; [congruence|discriminate].
    + destruct N'. exists m, s. split; [exact Et|exact L].
    + assert (m' = m) by (apply (D m' m s' s Et L' L)). subst m'.
      apply app_inv_head in Et. subst s'. f_equal. apply IH, H2.
Qed.

Lemma same_length_prefix (m m' rest rest' : text) :
  m ++ rest = m' ++ rest' -> length m = length m' -> m = m'.
Proof.
  revert m'; induction m as [|c m IH]; intros [|c' m'] E L; simpl in *;
    try discriminate; [reflexivity|].
  injection E as -> E. f_equal. apply (IH m' E). lia.
Qed.

Lemma label_re_deterministic : deterministic label_re.
Proof.
  intros m m' rest rest' E L L'.
  apply lang_label in L as (a & _ & ->). apply lang_label in L' as (b & _ & ->).
  apply (same_length_prefix _ _ _ _ E). reflexivity.
Qed.

(** Two runs of a class that end at a character outside the class. *)
Lemma run_unique (p : char -> bool) (x y : text) (a b : char) (u v : text) :
  forallb p x = true -> forallb p y = true -> p a = false -> p b = false ->
  x ++ a :: u = y ++ b :: v -> x = y /\ u = v.
Proof.
  revert y; induction x as [|c x IH]; intros [|d y] Px Py Pa Pb E;
    simpl in *.
  - injection E as _ E. auto.
  - injection E as -> _. apply andb_true_iff in Py as [Py _]. congruence.
  - injection E as -> _. apply andb_true_iff in Px as [Px _]. congruence.
  - injection E as -> E.
    apply andb_true_iff in Px as [_ Px]. apply andb_true_iff in Py as [_ Py].
    destruct (IH y Px Py Pa Pb E) as [-> ->]. auto.
Qed.

Lemma numbered_re_deterministic : deterministic numbered_re.
Proof.
  intros m m' rest rest' E L L'.
  apply lang_numbered in L as (d & ds & ws & a & -> & D & W & _).
  apply lang_numbered in L' as (d' & ds' & ws' & b & -> & D' & W' & _).
  rewrite <- !app_assoc in E. simpl in E. injection E as -> E.
  simpl in D, D'. apply andb_true_iff in D as [_ D].
  apply andb_true_iff in D' as [_ D'].
  destruct (run_unique is_digit ds ds' 46%N 46%N _ _ D D' eq_refl eq_refl E)
    as [-> E1].
  rewrite <- !app_assoc in E1. unfold response_label in E1. simpl in E1.
  destruct (run_unique is_space ws ws' 82%N 82%N _ _ W W' eq_refl eq_refl E1)
    as [-> E2].
  simpl. f_equal. f_equal. f_equal. unfold response_label. simpl.
  injection E2 as ->. reflexivity.
Qed.

(** Whatever the parser extracts from a section is a label that occurs in
    the section. *)
Lemma section_ranking_labels (ranking_section x : text) :
  In x (section_ranking ranking_section) ->
  exists L, is_upper L = true /\ x = response_label L /\
            contains x ranking_section = true.
Proof.
  unfold section_ranking.
  destruct (findall numbered_re ranking_section) as [|m ms] eqn:E.
  - intros I. pose proof (findall_in _ _ _ I) as Lx.
    apply lang_label in Lx as (L & U & ->). exists L. repeat split; auto.
    destruct (in_order_substring _ _ _ (findall_in_order _ _) I)
      as (a & b & ->). apply contains_intro.
  - rewrite <- E. intros I. apply in_map_iff in I as (m' & <- & I).
    destruct (numbered_group _ (findall_in _ _ _ I)) as (L & U & P & _).
    exists L. repeat split; auto.
    destruct (in_order_substring _ _ _ (findall_in_order _ _) I)
      as (a & b & ->).
    unfold label_portion.
    pose proof (firstn_skipn (length m' - 10) m') as S.
    set (x := skipn (length m' - 10) m') in *.
    rewrite <- S. rewrite <- !app_assoc, app_assoc.
    apply contains_intro.
Qed.

Lemma contains_part (sub a s b : text) :
  contains sub s = true -> contains sub (a ++ s ++ b) = true.
Proof.
  intros H. destruct (contains_inv _ _ H) as (u & v & ->).
  rewrite <- !app_assoc, app_assoc. apply contains_intro.
Qed.

(** Every item of a parse is a label that occurs in the text. *)
Lemma parse_labels (t : text) (l : list text) (x : text) :
  parse_ranking_from_text t = Ok l -> In x l ->
  exists L, is_upper L = true /\ x = response_label L /\ contains x t = true.
Proof.
  destruct (text_cases t) as [C|(pre & mid & rest & -> & Hp & Hm & Hr)].
  - rewrite parse_marker_absent by exact C. intros E I; injection E as <-.
    pose proof (findall_in _ _ _ I) as Lx.
    apply lang_label in Lx as (L & U & ->). exists L. repeat split; auto.
    destruct (in_order_substring _ _ _ (findall_in_order _ _) I)
      as (a & b & ->). apply contains_intro.
  - rewrite parse_marker_present by assumption. intros E I; injection E as <-.
    destruct (section_ranking_labels _ _ I) as (L & U & -> & C).
    exists L. repeat split; auto.
    rewrite (app_assoc pre). apply contains_part, C.
Qed.

(** A text without any label parses to the empty sequence. *)
Lemma parse_no_label (t : text) :
  (forall L, is_upper L = true -> contains (response_label L) t = false) ->
  parse_ranking_from_text t = Ok [].
Proof.
  intros H. destruct (parse_total t) as [[|x l] E]; [exact E|].
  destruct (parse_labels t _ x E ltac:(left; reflexivity)) as (L & U & -> & C).
  rewrite (H L U) in C. discriminate.
Qed.

(** With the marker once and numbered entries after it, the parse is the
    label portions of the entries, in the order of the text. *)
Lemma parse_numbered (pre post : text) :
  contains marker pre = false -> contains marker post = false ->
  findall numbered_re post <> [] ->
  parse_ranking_from_text (pre ++ marker ++ post)
  = Ok (map label_portion (findall numbered_re post)) /\
  leftmost numbered_re post (findall numbered_re post).
Proof.
  intros Hp Hm NE.
  split; [|apply findall_leftmost, numbered_re_nonempty].
  rewrite <- (app_nil_r post) at 1.
  rewrite parse_marker_present by auto. unfold section_ranking.
  destruct (findall numbered_re post); [congruence|reflexivity].
Qed.

(** With the marker once and no numbered entry after it, the parse is the
    labels of the text after the marker, in order. *)
Lemma parse_unnumbered (pre post : text) :
  contains marker pre = false -> contains marker post = false ->
  findall numbered_re post = [] ->
  parse_ranking_from_text (pre ++ marker ++ post)
  = Ok (findall label_re post) /\
  leftmost label_re post (findall label_re post).
Proof.
  intros Hp Hm NE.
  split; [|apply findall_leftmost, label_re_nonempty].
  rewrite <- (app_nil_r post) at 1.
  rewrite parse_marker_present by auto. unfold section_ranking.
  rewrite NE. reflexivity.
Qed.

(** The examples of the spec. *)
Example parse_spec_example :
  parse_ranking_from_text spec_example_text
  = Ok [txt "Response C"; txt "Response A"; txt "Response B"].
Proof. vm_compute. reflexivity. Qed.

Example parse_without_marker :
  parse_ranking_from_text (txt "...Response B... Response A...")
  = Ok [txt "Response B"; txt "Response A"].
Proof. vm_compute. reflexivity. Qed.

Example parse_marker_without_numbers :
  parse_ranking_from_text
    (txt "Response B first. " ++ marker ++ txt " Response A, Response C")
  = Ok [txt "Response A"; txt "Response C"].
Proof. vm_compute. reflexivity. Qed.

Example parse_out_of_order_numbers :
  parse_ranking_from_text
    (marker ++ newline ++ txt "2. Response A" ++ newline ++ txt "1. Response B")
  = Ok [txt "Response A"; txt "Response B"].
Proof. vm_compute. reflexivity. Qed.

(** ** The parser on a repeated marker *)

(** C2. A text in which numbered entries follow the marker, and for which
    the parser returns none of them: the marker occurs a second time, and
    the parser takes the text between the two occurrences only. *)
Theorem numbered_after_repeated_marker_lost :
  let pre := fst announced_numbered in
  let post := snd announced_numbered in
  contains marker pre = false /\
  findall numbered_re post = [txt "1. Response B"; txt "2. Response A"] /\
  map label_portion (findall numbered_re post)
  = [txt "Response B"; txt "Response A"] /\
  parse_ranking_from_text (pre ++ marker ++ post) = Ok [].
Proof. vm_compute. repeat split; reflexivity. Qed.

(** C3. A text with the marker and no numbered entry after it, for which
    the parser returns only the first of the labels that follow the
    marker: the marker occurs a second time, and the parser takes the text
    between the two occurrences only. *)
Theorem labels_after_repeated_marker_lost :
  let pre := fst announced_plain in
  let post := snd announced_plain in
  contains marker pre = false /\
  findall numbered_re post = [] /\
  findall label_re post
  = [txt "Response A"; txt "Response A"; txt "Response B"] /\
  parse_ranking_from_text (pre ++ marker ++ post) = Ok [txt "Response A"].
Proof. vm_compute. repeat split; reflexivity. Qed.

(** ** Effects *)

Lemma bind_ok {A B} (m : M A) (k : A -> M B) (w w' : world) (a : A) :
  m w = (Ok a, w') -> bind m k w = k a w'.
Proof. unfold bind; intros ->; reflexivity. Qed.

Lemma queries_app (w w' : world) : queries (w ++ w') = queries w + queries w'.
Proof. unfold queries. rewrite filter_app, length_app. reflexivity. Qed.

Lemma queries_enter (w : world) (op : operation) :
  queries (w ++ [Enter op]) = queries w.
Proof. rewrite queries_app. unfold queries; simpl. lia. Qed.

Lemma queries_query (w : world) (m : text) (ms : list Message) :
  queries (w ++ [Query m ms]) = S (queries w).
Proof. rewrite queries_app. unfold queries; simpl. lia. Qed.

Lemma outcomes_length `{Environment} (tasks : list (text * list Message)) :
  forall n, length (outcomes n tasks) = length tasks.
Proof.
  induction tasks as [|[m ms] tasks IH]; intros n; simpl; [reflexivity|].
  rewrite IH; reflexivity.
Qed.

(** A batch issues its queries in order and never raises. *)
Lemma gather_run `{Environment} (tasks : list (text * list Message)) :
  forall w,
    gather tasks w = (Ok (outcomes (queries w) tasks), w ++ query_events tasks).
Proof.
  induction tasks as [|[m ms] tasks IH]; intros w; simpl.
  - unfold ret. rewrite app_nil_r. reflexivity.
  - unfold bind at 1, query_model. rewrite (bind_ok _ _ _ _ _ (IH _)).
    unfold ret. rewrite queries_query, <- app_assoc. reflexivity.
Qed.

Lemma stage1_run `{Environment} (user_query : text) (personas : list Persona)
  (w : world) :
  stage1_collect_responses user_query personas w
  = (Ok (flat_map (fun pr => stage1_result (fst pr) (snd pr))
           (combine personas
              (outcomes (queries w) (stage1_tasks user_query personas)))),
     w ++ Enter OpStage1 :: query_events (stage1_tasks user_query personas)).
Proof.
  unfold stage1_collect_responses, enter. unfold bind at 1.
  fold (stage1_tasks user_query personas).
  rewrite (bind_ok _ _ _ _ _ (gather_run _ _)).
  unfold ret. rewrite queries_enter, <- app_assoc. reflexivity.
Qed.

(** ** Stage 1 *)

Lemma outcomes_nth `{Environment} (tasks : list (text * list Message)) :
  forall n i model messages,
    nth_error tasks i = Some (model, messages) ->
    nth_error (outcomes n tasks) i = Some (reply (n + i) model messages).
Proof.
  induction tasks as [|[m ms] tasks IH]; intros n [|i] model messages E;
    simpl in *; try discriminate.
  - injection E as -> ->. rewrite Nat.add_0_r. reflexivity.
  - rewrite (IH (S n) i model messages E). f_equal. f_equal. lia.
Qed.

Lemma stage1_results_made_from (l : list (Persona * option Response)) :
  Forall2 made_from (flat_map (fun pr => stage1_result (fst pr) (snd pr)) l)
    (filter succeeded l).
Proof.
  induction l as [|[persona [reply|]] l IH]; simpl.
  - constructor.
  - unfold succeeded at 1; simpl. constructor; [|exact IH].
    unfold made_from; simpl. repeat split; eauto.
  - exact IH.
Qed.

Lemma filter_length_le {A} (f : A -> bool) (l : list A) :
  length (filter f l) <= length l.
Proof.
  induction l as [|x l IH]; simpl; [lia|]. destruct (f x); simpl; lia.
Qed.

(** C5. For every persona list and every pattern of call outcomes,
    Stage 1 returns (and never raises) one result for each persona whose
    call succeeded and none for the others, in the order of the persona
    list; the result list is no longer than the persona list.  The reply
    of the [i]-th persona is the outcome of its own query, the [i]-th of
    the batch, made of its system prompt and the user's query. *)
Theorem stage1_successes_in_order (env : Environment) (user_query : text)
  (personas : list Persona) (w : world) :
  let replies := outcomes (queries w) (stage1_tasks user_query personas) in
  exists results w',
    stage1_collect_responses user_query personas w = (Ok results, w') /\
    length replies = length personas /\
    (forall i persona,
       nth_error personas i = Some persona ->
       nth_error replies i
       = Some (reply (queries w + i) (model persona)
                 [system_message (system_prompt persona);
                  user_message user_query])) /\
    Forall2 made_from results (filter succeeded (combine personas replies)) /\
    length results <= length personas.
Proof.
  intros replies. rewrite stage1_run. fold replies.
  assert (L : length replies = length personas).
  { unfold replies. rewrite outcomes_length. unfold stage1_tasks.
    apply length_map. }
  pose proof (stage1_results_made_from (combine personas replies)) as F.
  eexists _, _. split; [reflexivity|]. split; [exact L|].
  split; [|split; [exact F|]].
  - intros i persona E. apply outcomes_nth.
    unfold stage1_tasks. rewrite nth_error_map, E. reflexivity.
  - rewrite (Forall2_length F).
    etransitivity; [apply filter_length_le|].
    rewrite length_combine. lia.
Qed.

(** ** Labels *)

Lemma labels_from (n : nat) :
  forall k, (65 + N.of_nat (k + n) <= 0x110000)%N ->
    rmap (fun i => chr (65 + N.of_nat i)) (seq k n)
    = Ok (map (fun i => (65 + N.of_nat i)%N) (seq k n)).
Proof.
  induction n as [|n IH]; intros k B; cbn [seq rmap map]; [reflexivity|].
  unfold chr at 1.
  destruct (N.ltb_spec (65 + N.of_nat k) 0x110000) as [_|G]; [|lia].
  cbn [rbind].
  rewrite IH by (replace (S k + n) with (k + S n) by lia; exact B).
  reflexivity.
Qed.

(** No [ValueError] up to 1114047 labels. *)
Lemma labels_ok (n : nat) :
  (N.of_nat n <= 1114047)%N -> labels n = Ok (letters n).
Proof. intros B. apply labels_from. cbn [Nat.add]. lia. Qed.

Lemma letters_alphabet (n : nat) : n <= 26 -> letters n = firstn n alphabet.
Proof.
  intros B. do 27 (destruct n as [|n]; [reflexivity|]). lia.
Qed.

Lemma letters_length (n : nat) : length (letters n) = n.
Proof. unfold letters. rewrite length_map, length_seq. reflexivity. Qed.

(** ** Stage 2 *)

Lemma format_rankings_ranked (l : list (text * option Response)) :
  exists results,
    format_rankings l = Ok results /\
    Forall2 ranked_from results (filter succeeded l).
Proof.
  induction l as [|[ranker [reply|]] l (results & E & F)]; simpl.
  - exists []; split; [reflexivity|constructor].
  - destruct (parse_total (content_or_empty reply)) as [parsed P].
    rewrite P, E. simpl. eexists; split; [reflexivity|].
    unfold succeeded at 1; simpl. constructor; [|exact F].
    unfold ranked_from; simpl. split; [reflexivity|]. eauto.
  - exists results; auto.
Qed.

Lemma stage2_run (env : Environment) (user_query : text)
  (stage1_results : list Stage1Result) (w : world) :
  (N.of_nat (length stage1_results) <= 1114047)%N ->
  let labels := letters (length stage1_results) in
  let tasks := stage2_tasks user_query labels stage1_results in
  let replies := outcomes (queries w) tasks in
  exists results,
    format_rankings (combine (map s1_persona_name stage1_results) replies)
    = Ok results /\
    stage2_collect_rankings user_query stage1_results w
    = (Ok {| stage2_results := results;
             label_to_persona := label_mapping labels stage1_results |},
       w ++ Enter OpStage2 :: query_events tasks).
Proof.
  intros B labels tasks replies.
  destruct (format_rankings_ranked
              (combine (map s1_persona_name stage1_results) replies))
    as (results & E & _).
  exists results. split; [exact E|].
  unfold stage2_collect_rankings, enter. unfold bind at 1.
  rewrite (labels_ok _ B). unfold lift at 1, bind at 1.
  fold labels. fold (stage2_tasks user_query labels stage1_results).
  fold tasks. rewrite (bind_ok _ _ _ _ _ (gather_run _ _)).
  rewrite queries_enter. fold replies. rewrite E.
  unfold lift, bind, ret. rewrite <- app_assoc. reflexivity.
Qed.

Lemma stage2_inv (env : Environment) (user_query : text)
  (stage1_results : list Stage1Result) (w w' : world) (ranked : Stage2Ranked) :
  stage2_collect_rankings user_query stage1_results w = (Ok ranked, w') ->
  exists l, format_rankings l = Ok (stage2_results ranked).
Proof.
  unfold stage2_collect_rankings, enter. unfold bind at 1.
  unfold lift at 1, bind at 1.
  destruct (labels (length stage1_results)) as [ls|e]; [|discriminate].
  rewrite (bind_ok _ _ _ _ _ (gather_run _ _)).
  unfold lift, bind, ret.
  match goal with |- context [format_rankings ?l] =>
    destruct (format_rankings l) as [results|e] eqn:E; [|discriminate];
    intros H; injection H as <- _; exists l; exact E
  end.
Qed.

Lemma format_rankings_parsed (l : list (text * option Response)) :
  forall results, format_rankings l = Ok results ->
    Forall parsed_is_parse results.
Proof.
  intros results E.
  destruct (format_rankings_ranked l) as (results' & E' & F).
  rewrite E in E'; injection E' as <-.
  clear E. induction F as [|r pr rs prs R _ IH]; constructor; [|exact IH].
  destruct R as (_ & reply & _ & _ & P). exact P.
Qed.

(** ** Aggregation reads what Stage 2 stored *)

Lemma collect_positions_parsed (stage2_results : list Stage2Result)
  (label_to_persona : dict text) :
  Forall parsed_is_parse stage2_results ->
  forall model_positions,
    collect_positions stage2_results label_to_persona model_positions
    = Ok (collect_parsed stage2_results label_to_persona model_positions).
Proof.
  induction 1 as [|r rs P _ IH]; intros mp; simpl; [reflexivity|].
  rewrite P. simpl. apply IH.
Qed.

Lemma calculate_parsed (stage2_results : list Stage2Result)
  (label_to_persona : dict text) :
  Forall parsed_is_parse stage2_results ->
  calculate_aggregate_rankings stage2_results label_to_persona
  = Ok (aggregate_parsed stage2_results label_to_persona).
Proof.
  intros F. unfold calculate_aggregate_rankings.
  rewrite (collect_positions_parsed _ _ F). reflexivity.
Qed.

(** C10. Every result of Stage 2 stores, as its parsed ranking, the parse
    of the ranking text it stores; so the aggregation, which parses the
    texts again, computes what aggregating the stored parsed rankings
    computes. *)
Theorem stage2_parsed_ranking_is_parse (env : Environment) (user_query : text)
  (stage1_results : list Stage1Result) (w w' : world) (ranked : Stage2Ranked) :
  stage2_collect_rankings user_query stage1_results w = (Ok ranked, w') ->
  Forall parsed_is_parse (stage2_results ranked) /\
  forall label_to_persona,
    calculate_aggregate_rankings (stage2_results ranked) label_to_persona
    = Ok (aggregate_parsed (stage2_results ranked) label_to_persona).
Proof.
  intros H. destruct (stage2_inv _ _ _ _ _ _ H) as [l E].
  pose proof (format_rankings_parsed _ _ E) as F.
  split; [exact F|]. intros l2p. apply calculate_parsed, F.
Qed.

Lemma stage2_parsed_ranking_is_parse_witness :
  let env :=
    example_environment
      [says (txt "FINAL RANKING: 1. Response B 2. Response A 3. Response C");
       None;
       says (txt "Response C, then Response A")] in
  exists ranked w',
    stage2_collect_rankings (txt "why?") example_stage1 [] = (Ok ranked, w') /\
    Forall parsed_is_parse (stage2_results ranked) /\
    forall label_to_persona,
      calculate_aggregate_rankings (stage2_results ranked) label_to_persona
      = Ok (aggregate_parsed (stage2_results ranked) label_to_persona).
Proof.
  intros env. eexists _, _. split; [vm_compute; reflexivity|].
  eapply (stage2_parsed_ranking_is_parse env (txt "why?") example_stage1 []).
  vm_compute; reflexivity.
Defined.

(** ** Dictionaries *)

Lemma dict_get_set_same {V} (k : text) (v : V) (d : dict V) :
  dict_get k (dict_set k v d) = Some v.
Proof.
  induction d as [|[k' v'] d IH]; simpl.
  - rewrite text_eqb_refl; reflexivity.
  - destruct (text_eqb k' k) eqn:E; simpl; rewrite E; auto.
Qed.

Lemma dict_get_set_other {V} (k k' : text) (v : V) (d : dict V) :
  k <> k' -> dict_get k' (dict_set k v d) = dict_get k' d.
Proof.
  intros N. induction d as [|[k0 v0] d IH]; simpl.
  - apply text_eqb_neq in N. rewrite N; reflexivity.
  - destruct (text_eqb k0 k) eqn:E; simpl.
    + apply text_eqb_eq in E; subst k0.
      apply text_eqb_neq in N. rewrite N; reflexivity.
    + destruct (text_eqb k0 k'); auto.
Qed.

(** ** The label mapping *)

Lemma response_label_inj (a b : char) :
  response_label a = response_label b -> a = b.
Proof. unfold response_label; simpl. congruence. Qed.

Lemma label_mapping_other (l : list (char * Stage1Result)) (L : char) :
  ~ In L (map fst l) ->
  forall d,
    dict_get (response_label L)
      (fold_left
         (fun d lr =>
            dict_set (response_label (fst lr)) (s1_persona_name (snd lr)) d)
         l d)
    = dict_get (response_label L) d.
Proof.
  induction l as [|[a r] l IH]; intros NI d; simpl; [reflexivity|].
  simpl in NI. rewrite IH by tauto.
  apply dict_get_set_other. intros E. apply response_label_inj in E. tauto.
Qed.

Lemma label_mapping_get (l : list (char * Stage1Result)) :
  NoDup (map fst l) ->
  forall d i L r,
    nth_error l i = Some (L, r) ->
    dict_get (response_label L)
      (fold_left
         (fun d lr =>
            dict_set (response_label (fst lr)) (s1_persona_name (snd lr)) d)
         l d)
    = Some (s1_persona_name r).
Proof.
  induction l as [|[a r0] l IH]; intros ND d i L r E.
  - destruct i; discriminate.
  - simpl in ND. inversion ND as [|? ? NI ND']; subst.
    destruct i as [|i]; simpl in E.
    + injection E as -> ->. simpl.
      rewrite label_mapping_other by exact NI. apply dict_get_set_same.
    + simpl. eapply IH; eauto.
Qed.

Lemma letters_nth (n i : nat) :
  i < n -> nth_error (letters n) i = Some (65 + N.of_nat i)%N.
Proof.
  intros B. unfold letters.
  rewrite nth_error_map, nth_error_seq.
  destruct (Nat.ltb_spec i n); [reflexivity|lia].
Qed.

Lemma letters_NoDup (n : nat) : NoDup (letters n).
Proof.
  unfold letters. apply Injective_map_NoDup; [|apply seq_NoDup].
  intros a b E. lia.
Qed.

Lemma nth_error_combine {A B} (l : list A) (l' : list B) (i : nat) (a : A)
  (b : B) :
  nth_error l i = Some a -> nth_error l' i = Some b ->
  nth_error (combine l l') i = Some (a, b).
Proof.
  revert l' i; induction l as [|x l IH]; intros [|y l'] [|i] Ha Hb;
    simpl in *; try discriminate; [congruence|eauto].
Qed.

Lemma map_fst_combine {A B} (l : list A) (l' : list B) :
  length l = length l' -> map fst (combine l l') = l.
Proof.
  revert l'; induction l as [|x l IH]; intros [|y l'] E; simpl in *;
    try discriminate; [reflexivity|]. rewrite IH by lia. reflexivity.
Qed.

(** The [i]-th result gets the label with code point [65 + i]. *)
Lemma label_mapping_letters (stage1_results : list Stage1Result) (i : nat)
  (r : Stage1Result) :
  nth_error stage1_results i = Some r ->
  dict_get (response_label (65 + N.of_nat i)%N)
    (label_mapping (letters (length stage1_results)) stage1_results)
  = Some (s1_persona_name r).
Proof.
  intros E. unfold label_mapping.
  assert (B : i < length stage1_results)
    by (apply nth_error_Some; congruence).
  eapply label_mapping_get.
  - rewrite map_fst_combine by apply letters_length. apply letters_NoDup.
  - apply nth_error_combine; [apply letters_nth, B|exact E].
Qed.

Lemma alphabet_nth (i : nat) :
  i < 26 -> nth_error alphabet i = Some (65 + N.of_nat i)%N.
Proof. intros B. apply (letters_nth 26 i B). Qed.

(** C9. For a Stage 1 result list of at most 26 entries, the labels are
    the first letters of the uppercase alphabet in order, the [i]-th
    result is mapped from the label made of the [i]-th letter, and two
    runs of Stage 2 over the same result list, whatever the query, the
    collaborators and the turn so far, build the same label mapping. *)
Theorem labels_follow_stage1_order (env env' : Environment) (q q' : text)
  (stage1_results : list Stage1Result) (w w' : world) :
  length stage1_results <= 26 ->
  labels (length stage1_results)
  = Ok (firstn (length stage1_results) alphabet) /\
  exists ranked ranked' w1 w1',
    @stage2_collect_rankings env q stage1_results w = (Ok ranked, w1) /\
    @stage2_collect_rankings env' q' stage1_results w' = (Ok ranked', w1') /\
    label_to_persona ranked = label_to_persona ranked' /\
    forall i r,
      nth_error stage1_results i = Some r ->
      exists L,
        nth_error alphabet i = Some L /\
        dict_get (response_label L) (label_to_persona ranked)
        = Some (s1_persona_name r).
Proof.
  intros B.
  assert (B' : (N.of_nat (length stage1_results) <= 1114047)%N) by lia.
  split.
  - rewrite (labels_ok _ B'). f_equal. apply letters_alphabet, B.
  - destruct (stage2_run env q stage1_results w B') as (rs & _ & E).
    destruct (stage2_run env' q' stage1_results w' B') as (rs' & _ & E').
    eexists _, _, _, _. split; [exact E|]. split; [exact E'|].
    split; [reflexivity|]. intros i r Hi. simpl.
    assert (i < 26).
    { assert (i < length stage1_results)
        by (apply nth_error_Some; congruence). lia. }
    exists (65 + N.of_nat i)%N. split; [apply alphabet_nth; assumption|].
    apply label_mapping_letters, Hi.
Qed.

Lemma labels_follow_stage1_order_witness :
  let env := example_environment [None; says (txt "1. Response A")] in
  let env' := example_environment [] in
  length example_stage1 <= 26 /\
  labels (length example_stage1) = Ok (firstn (length example_stage1) alphabet) /\
  exists ranked ranked' w1 w1',
    @stage2_collect_rankings env (txt "why?") example_stage1 []
    = (Ok ranked, w1) /\
    @stage2_collect_rankings env' (txt "how?") example_stage1
       [Enter OpPlanner] = (Ok ranked', w1') /\
    label_to_persona ranked = label_to_persona ranked' /\
    forall i r,
      nth_error example_stage1 i = Some r ->
      exists L,
        nth_error alphabet i = Some L /\
        dict_get (response_label L) (label_to_persona ranked)
        = Some (s1_persona_name r).
Proof.
  intros env env'.
  assert (B : length example_stage1 <= 26) by (simpl; lia).
  split; [exact B|].
  exact (labels_follow_stage1_order env env' (txt "why?") (txt "how?")
           example_stage1 [] [Enter OpPlanner] B).
Defined.

(** ** Planner, Stage 3 and the orchestrator *)

Lemma generate_run (env : Environment) (user_query : text) (w : world) :
  generate_dynamic_personas user_query w
  = (Ok (planner_value
           (reply (queries w) CHAIRMAN_MODEL
              [user_message (planner_prompt user_query)])),
     w ++ [Enter OpPlanner; planner_query user_query]).
Proof.
  unfold generate_dynamic_personas, enter, query_model, planner_value,
    planner_query. unfold bind. rewrite queries_enter, <- app_assoc.
  destruct (truthy_content _) as [content|]; [|reflexivity].
  destruct (decode_personas content); reflexivity.
Qed.

Lemma stage3_run (env : Environment) (user_query : text)
  (stage1_results : list Stage1Result) (stage2_results : list Stage2Result)
  (w : world) :
  let messages := chairman_messages user_query stage1_results stage2_results in
  stage3_synthesize_final user_query stage1_results stage2_results w
  = (Ok (synthesis (reply (queries w) CHAIRMAN_MODEL messages)),
     w ++ [Enter OpStage3; Query CHAIRMAN_MODEL messages]).
Proof.
  intros messages.
  unfold stage3_synthesize_final, enter, query_model, synthesis.
  unfold bind. fold (chairman_messages user_query stage1_results stage2_results).
  fold messages. rewrite queries_enter, <- app_assoc.
  destruct (reply _ _ _); reflexivity.
Qed.

Lemma aggregate_run (stage2_results : list Stage2Result)
  (label_to_persona : dict text) (w : world) :
  Forall parsed_is_parse stage2_results ->
  aggregate stage2_results label_to_persona w
  = (Ok (aggregate_parsed stage2_results label_to_persona),
     w ++ [Enter OpAggregate]).
Proof.
  intros F. unfold aggregate, enter, bind, lift.
  rewrite (calculate_parsed _ _ F). reflexivity.
Qed.

Lemma queries_query_events (tasks : list (text * list Message)) :
  queries (query_events tasks) = length tasks.
Proof.
  unfold queries, query_events.
  induction tasks as [|t tasks IH]; simpl; [reflexivity|]. rewrite IH; reflexivity.
Qed.

(** A turn that gets past Stage 1 and whose Stage 2 returns. *)
Lemma council_run (env : Environment) (user_query : text)
  (w w1 w2 w3 : world) (personas : pyval) (council : list Persona)
  (stage1_results : list Stage1Result) (ranked : Stage2Ranked) :
  generate_dynamic_personas user_query w = (Ok personas, w1) ->
  as_personas personas = Ok council ->
  stage1_collect_responses user_query council w1 = (Ok stage1_results, w2) ->
  stage1_results <> [] ->
  stage2_collect_rankings user_query stage1_results w2 = (Ok ranked, w3) ->
  let messages :=
    chairman_messages user_query stage1_results (stage2_results ranked) in
  run_full_council user_query w
  = (Ok {| out_personas := personas;
           out_stage1 := stage1_results;
           out_stage2 := stage2_results ranked;
           out_stage3 := synthesis (reply (queries w3) CHAIRMAN_MODEL messages);
           out_metadata :=
             Some {| label_to_model := label_to_persona ranked;
                     aggregate_rankings :=
                       aggregate_parsed (stage2_results ranked)
                         (label_to_persona ranked) |} |},
     w3 ++ [Enter OpAggregate; Enter OpStage3; Query CHAIRMAN_MODEL messages]).
Proof.
  intros G A S1 NE S2 messages.
  destruct (stage2_inv _ _ _ _ _ _ S2) as [l E].
  pose proof (format_rankings_parsed _ _ E) as F.
  unfold run_full_council.
  rewrite (bind_ok _ _ _ _ _ G). unfold lift at 1, bind at 1. rewrite A.
  rewrite (bind_ok _ _ _ _ _ S1).
  destruct stage1_results as [|r rs]; [congruence|].
  rewrite (bind_ok _ _ _ _ _ S2).
  rewrite (bind_ok _ _ _ _ _ (aggregate_run _ _ _ F)).
  rewrite (bind_ok _ _ _ _ _ (stage3_run _ _ _ _ _)).
  unfold ret. fold messages. rewrite queries_enter.
  repeat (rewrite <- app_assoc || rewrite <- app_comm_cons). reflexivity.
Qed.







(** ** PersonaPlanner *)

(** No reply, a reply without content and a reply with empty content give
    the default personas. *)
Lemma planner_no_content (env : Environment) (response : option Response) :
  truthy_content response = None -> planner_value response = fallback.
Proof. unfold planner_value. intros ->. reflexivity. Qed.

(** So does a reply whose text does not decode. *)
Lemma planner_decode_error (env : Environment) (response : option Response)
  (content body : text) :
  truthy_content response = Some content ->
  strip_fence content = Ok body -> json_loads (strip body) = None ->
  planner_value response = fallback.
Proof.
  unfold planner_value, decode_personas. intros -> -> H. simpl.
  rewrite H. reflexivity.
Qed.

(** So does a reply that decodes to something else than an object. *)
Lemma planner_not_an_object (env : Environment) (response : option Response)
  (content body : text) (data : pyval) :
  truthy_content response = Some content ->
  strip_fence content = Ok body -> json_loads (strip body) = Some data ->
  (forall d, data <> PDict d) ->
  planner_value response = fallback.
Proof.
  unfold planner_value, decode_personas. intros -> -> H N. simpl.
  rewrite H. destruct data; try reflexivity. destruct (N d); reflexivity.
Qed.

(** The default personas carry their configured ids; there is one for
    each default id when all of them are configured. *)
Lemma default_personas_ids (env : Environment) :
  (forall pid, In pid DEFAULT_PERSONAS -> dict_get pid PERSONAS <> None) ->
  map (dict_get (txt "id")) default_personas = map Some DEFAULT_PERSONAS.
Proof.
  unfold default_personas. induction DEFAULT_PERSONAS as [|pid l IH];
    intros H; simpl; [reflexivity|].
  destruct (dict_get pid PERSONAS) as [persona|] eqn:E.
  - simpl. rewrite dict_get_set_same. f_equal.
    apply IH. intros; apply H; right; assumption.
  - destruct (H pid); [left; reflexivity|exact E].
Qed.

(** C1. A reply of the planner that decodes to a JSON object without the
    key ['personas'] does not give the default personas: the planner
    returns the empty list. *)
Theorem planner_missing_key_returns_empty (env : Environment)
  (user_query : text) (w : world) (response : option Response)
  (content body : text) (d : list (text * pyval)) :
  reply (queries w) CHAIRMAN_MODEL [user_message (planner_prompt user_query)]
  = response ->
  truthy_content response = Some content ->
  strip_fence content = Ok body ->
  json_loads (strip body) = Some (PDict d) ->
  dict_get (txt "personas") d = None ->
  generate_dynamic_personas user_query w
  = (Ok (PList []), w ++ [Enter OpPlanner; planner_query user_query]).
Proof.
  intros R T F J K. rewrite generate_run, R.
  unfold planner_value, decode_personas. rewrite T, F. simpl.
  rewrite J. simpl. rewrite K. reflexivity.
Qed.

Lemma planner_missing_key_returns_empty_witness :
  let env := example_environment [says (txt "{}")] in
  reply (queries []) CHAIRMAN_MODEL [user_message (planner_prompt (txt "why?"))]
  = says (txt "{}") /\
  truthy_content (says (txt "{}")) = Some (txt "{}") /\
  strip_fence (txt "{}") = Ok (txt "{}") /\
  json_loads (strip (txt "{}")) = Some (PDict []) /\
  dict_get (txt "personas") (@nil (text * pyval)) = None /\
  fst (generate_dynamic_personas (txt "why?") []) = Ok (PList []) /\
  length default_personas = 3.
Proof.
  intros env.
  assert (R : reply (queries []) CHAIRMAN_MODEL
                [user_message (planner_prompt (txt "why?"))]
              = says (txt "{}")) by reflexivity.
  assert (T : truthy_content (says (txt "{}")) = Some (txt "{}"))
    by reflexivity.
  assert (F : strip_fence (txt "{}") = Ok (txt "{}")) by reflexivity.
  assert (J : json_loads (strip (txt "{}")) = Some (PDict []))
    by reflexivity.
  assert (K : dict_get (txt "personas") (@nil (text * pyval)) = None)
    by reflexivity.
  repeat (split; [assumption|]).
  rewrite (planner_missing_key_returns_empty env (txt "why?") [] _ _ _ _
             R T F J K).
  split; reflexivity.
Defined.

(** ** The positions the aggregation records *)

Lemma dict_get_in {V} (k : text) (v : V) (d : dict V) :
  dict_get k d = Some v -> In (k, v) d.
Proof.
  induction d as [|[k' v'] d IH]; simpl; [discriminate|].
  destruct (text_eqb k' k) eqn:E.
  - apply text_eqb_eq in E; subst k'. intros H; injection H as ->. auto.
  - auto.
Qed.

Lemma dict_get_none {V} (k : text) (d : dict V) :
  dict_get k d = None <-> ~ In k (keys d).
Proof.
  induction d as [|[k' v'] d IH]; simpl; [tauto|].
  destruct (text_eqb k' k) eqn:E.
  - apply text_eqb_eq in E; subst k'. split; [discriminate|tauto].
  - apply text_eqb_neq in E. rewrite IH. tauto.
Qed.


Lemma dict_set_keys {V} (k : text) (v : V) (d : dict V) :
  keys (dict_set k v d)
  = match dict_get k d with
    | Some _ => keys d
    | None => keys d ++ [k]
    end.
Proof.
  induction d as [|[k' v'] d IH]; simpl; [reflexivity|].
  destruct (text_eqb k' k) eqn:E; simpl; [reflexivity|].
  rewrite IH. destruct (dict_get k d); reflexivity.
Qed.

Lemma dict_set_NoDup {V} (k : text) (v : V) (d : dict V) :
  NoDup (keys d) -> NoDup (keys (dict_set k v d)).
Proof.
  intros ND. rewrite dict_set_keys.
  destruct (dict_get k d) eqn:E; [exact ND|].
  apply dict_get_none in E.
  apply NoDup_app; [exact ND|repeat constructor; simpl; tauto|].
  intros x Hx [<-|[]]. contradiction.
Qed.

Lemma dict_set_Forall {V} (P : V -> Prop) (k : text) (v : V) (d : dict V) :
  Forall (fun kv => P (snd kv)) d -> P v ->
  Forall (fun kv => P (snd kv)) (dict_set k v d).
Proof.
  intros F Pv. induction F as [|[k' v'] d Pk F IH]; simpl.
  - repeat constructor; exact Pv.
  - destruct (text_eqb k' k); constructor; auto.
Qed.

Lemma positions_of_set (persona name : text) (v : list Z)
  (model_positions : dict (list Z)) :
  positions_of persona (dict_set name v model_positions)
  = if text_eqb name persona then v else positions_of persona model_positions.
Proof.
  unfold positions_of. destruct (text_eqb name persona) eqn:E.
  - apply text_eqb_eq in E; subst. rewrite dict_get_set_same; reflexivity.
  - apply text_eqb_neq in E. rewrite dict_get_set_other by exact E.
    reflexivity.
Qed.

(** What the inner loop does to the positions of each persona. *)
Lemma record_ranking_positions (label_to_persona : dict text) (persona : text)
  (order : list text) :
  forall position model_positions,
    positions_of persona
      (record_ranking label_to_persona position order model_positions)
    = positions_of persona model_positions
      ++ positions_in label_to_persona persona position order.
Proof.
  induction order as [|label rest IH]; intros position mp; simpl.
  - rewrite app_nil_r; reflexivity.
  - rewrite IH. destruct (dict_get label label_to_persona) as [name|];
      [|reflexivity].
    rewrite positions_of_set.
    destruct (text_eqb name persona) eqn:E; [|reflexivity].
    apply text_eqb_eq in E; subst name.
    rewrite <- app_assoc. reflexivity.
Qed.

Lemma record_ranking_well_formed (label_to_persona : dict text)
  (order : list text) :
  forall position model_positions,
    well_formed model_positions ->
    well_formed (record_ranking label_to_persona position order model_positions).
Proof.
  induction order as [|label rest IH]; intros position mp W; simpl;
    [exact W|].
  apply IH. destruct (dict_get label label_to_persona) as [name|]; [|exact W].
  destruct W as [ND F]. split.
  - apply dict_set_NoDup, ND.
  - apply (dict_set_Forall (fun v => v <> [])); [exact F|].
    destruct (positions_of name mp); discriminate.
Qed.

(** What the outer loop returns: it never raises, and it records for each
    persona the positions of the spec, in order. *)
Lemma collect_positions_recorded (label_to_persona : dict text)
  (stage2_results : list Stage2Result) :
  forall model_positions,
    well_formed model_positions ->
    exists final,
      collect_positions stage2_results label_to_persona model_positions
      = Ok final /\
      well_formed final /\
      forall persona,
        positions_of persona final
        = positions_of persona model_positions
          ++ recorded stage2_results label_to_persona persona.
Proof.
  unfold recorded.
  induction stage2_results as [|r rs IH]; intros mp W; simpl.
  - exists mp. repeat split; try apply W.
    intros; rewrite app_nil_r; reflexivity.
  - unfold parsed_order.
    destruct (parse_total (ranking r)) as [order P]. rewrite P. simpl.
    destruct (IH (record_ranking label_to_persona 1 order mp)
                (record_ranking_well_formed _ _ _ _ W))
      as (final & E & Wf & Pos).
    exists final. repeat split; try apply Wf; [exact E|].
    intros persona. rewrite Pos, record_ranking_positions, <- app_assoc.
    reflexivity.
Qed.

Lemma well_formed_empty : well_formed [].
Proof. split; constructor. Qed.


Lemma aggregate_entries_models (model_positions : dict (list Z)) :
  well_formed model_positions ->
  map agg_model (flat_map aggregate_entry model_positions)
  = keys model_positions.
Proof.
  intros [_ F]. induction F as [|[k v] d NE F IH]; simpl; [reflexivity|].
  destruct v as [|z v]; [simpl in NE; congruence|]. simpl. f_equal. exact IH.
Qed.

(** ** The order on floats *)






(** ** The sort *)

Lemma insert_entry_perm (x : AggregateEntry) (l : list AggregateEntry) :
  Permutation (insert_entry x l) (x :: l).
Proof.
  induction l as [|y l IH]; simpl; [reflexivity|].
  destruct (float_ltb (average_rank y) (average_rank x)); [|reflexivity].
  rewrite IH. apply perm_swap.
Qed.

Lemma sort_perm (l : list AggregateEntry) :
  Permutation (sort_by_average_rank l) l.
Proof.
  induction l as [|x l IH]; simpl; [reflexivity|].
  rewrite insert_entry_perm, IH. reflexivity.
Qed.



(** ** Rounding *)




(** ** Aggregator *)








(** ** Trimming *)

Lemma lstrip_drop (s : text) : lstrip s = drop_while is_space s.
Proof. induction s as [|c s IH]; simpl; [reflexivity|]. rewrite IH; reflexivity. Qed.

Lemma lstrip_chars_drop (chars : list char) (s : text) :
  lstrip_chars chars s = drop_while (fun c => existsb (N.eqb c) chars) s.
Proof. induction s as [|c s IH]; simpl; [reflexivity|]. rewrite IH; reflexivity. Qed.

Lemma strip_trim (s : text) : strip s = trim is_space s.
Proof. unfold strip, trim. rewrite !lstrip_drop. reflexivity. Qed.

Lemma strip_chars_trim (s : text) : strip_chars quotes s = trim is_quote s.
Proof. unfold strip_chars, trim. rewrite !lstrip_chars_drop. reflexivity. Qed.

Lemma drop_while_split (p : char -> bool) (s : text) :
  exists pre, s = pre ++ drop_while p s /\ forallb p pre = true.
Proof.
  induction s as [|c s (pre & E & F)]; simpl.
  - exists []; auto.
  - destruct (p c) eqn:Pc.
    + exists (c :: pre). simpl. rewrite Pc, F. split; [congruence|reflexivity].
    + exists []; auto.
Qed.

Lemma drop_while_hd (p : char -> bool) (s : text) (c : char) :
  hd_error (drop_while p s) = Some c -> p c = false.
Proof.
  induction s as [|x s IH]; simpl; [discriminate|].
  destruct (p x) eqn:Px; [exact IH|]. simpl. congruence.
Qed.

Lemma drop_while_length (p : char -> bool) (s : text) :
  length (drop_while p s) <= length s.
Proof.
  destruct (drop_while_split p s) as (pre & E & _).
  rewrite E at 2. rewrite length_app. lia.
Qed.

Lemma drop_while_all (p : char -> bool) (s : text) :
  forallb p s = true -> drop_while p s = [].
Proof.
  induction s as [|c s IH]; simpl; [reflexivity|].
  intros H; apply andb_true_iff in H as [-> H]. auto.
Qed.

Lemma drop_while_keep (p : char -> bool) (s : text) :
  (forall c, hd_error s = Some c -> p c = false) -> drop_while p s = s.
Proof.
  destruct s as [|c s]; simpl; [reflexivity|].
  intros H. rewrite (H c eq_refl). reflexivity.
Qed.

Lemma hd_error_app_nonempty (a b : text) (c : char) :
  hd_error a = Some c -> hd_error (a ++ b) = Some c.
Proof. destruct a; simpl; [discriminate|auto]. Qed.

Lemma trim_length (p : char -> bool) (s : text) : length (trim p s) <= length s.
Proof.
  unfold trim. rewrite length_rev.
  etransitivity; [apply drop_while_length|].
  rewrite length_rev. apply drop_while_length.
Qed.

Lemma trim_ends (p : char -> bool) (s : text) : ends_outside p (trim p s).
Proof.
  unfold ends_outside, trim. set (a := drop_while p s).
  destruct (drop_while_split p (rev a)) as (pre & E & _).
  set (b := drop_while p (rev a)) in *. split.
  - intros c H.
    assert (Ea : a = rev b ++ rev pre).
    { rewrite <- (rev_involutive a), E, rev_app_distr. reflexivity. }
    apply (drop_while_hd p s c). fold a. rewrite Ea.
    apply hd_error_app_nonempty, H.
  - intros c. rewrite rev_involutive. apply drop_while_hd.
Qed.

Lemma trim_all (p : char -> bool) (s : text) :
  forallb p s = true -> trim p s = [].
Proof. intros H. unfold trim. rewrite (drop_while_all p s H). reflexivity. Qed.

Lemma trim_keep (p : char -> bool) (s : text) :
  ends_outside p s -> trim p s = s.
Proof.
  intros [H T]. unfold trim. rewrite (drop_while_keep p s H).
  rewrite (drop_while_keep p (rev s) T). apply rev_involutive.
Qed.

(** ** Conversation title *)

Lemma title_run (env : Environment) (user_query : text) (w : world) :
  generate_conversation_title user_query w
  = (Ok match reply (queries w) (txt "google/gemini-2.5-flash")
                [user_message (title_prompt user_query)] with
        | None => default_title
        | Some r =>
            clean_title match reply_content r with
                        | Some c => c
                        | None => default_title
                        end
        end,
     w ++ [title_query user_query]).
Proof.
  unfold generate_conversation_title, query_model, bind, title_query.
  destruct (reply _ _ _); reflexivity.
Qed.

Lemma clean_title_length (content : text) : length (clean_title content) <= 50.
Proof.
  unfold clean_title.
  destruct (Nat.ltb_spec 50 (length (strip_chars quotes (strip content))))
    as [L|L]; [|exact L].
  rewrite length_app, length_firstn.
  change (length (txt "...")) with 3. lia.
Qed.

(** X1. The title generator never raises, issues exactly one query, to
    the title model, and returns a title of at most 50 characters,
    whatever the reply. *)
Theorem title_at_most_50 (env : Environment) (user_query : text) (w : world) :
  exists title,
    generate_conversation_title user_query w
    = (Ok title, w ++ [title_query user_query]) /\
    length title <= 50.
Proof.
  rewrite title_run. eexists. split; [reflexivity|].
  destruct (reply _ _ _) as [r|]; [apply clean_title_length|].
  change (length default_title) with 16. lia.
Qed.

(** X2. When the title query fails, or its reply has no content, the
    title is "New Conversation". *)
Theorem title_default (env : Environment) (user_query : text) (w : world)
  (response : option Response) :
  reply (queries w) (txt "google/gemini-2.5-flash")
    [user_message (title_prompt user_query)] = response ->
  response = None \/ response = Some {| reply_content := None |} ->
  fst (generate_conversation_title user_query w) = Ok (txt "New Conversation").
Proof.
  intros R H. rewrite title_run, R. destruct H as [->| ->]; reflexivity.
Qed.

Lemma title_default_witness :
  let env := example_environment [] in
  reply (queries []) (txt "google/gemini-2.5-flash")
    [user_message (title_prompt (txt "why?"))] = None /\
  (@None Response = None \/ None = Some {| reply_content := None |}) /\
  fst (generate_conversation_title (txt "why?") [])
  = Ok (txt "New Conversation").
Proof.
  intros env.
  assert (R : reply (queries []) (txt "google/gemini-2.5-flash")
                [user_message (title_prompt (txt "why?"))] = None)
    by reflexivity.
  assert (H : @None Response = None \/ None = Some {| reply_content := None |})
    by (left; reflexivity).
  split; [exact R|]. split; [exact H|].
  exact (title_default env (txt "why?") [] None R H).
Defined.

Lemma clean_title_ends (content : text) :
  ends_outside is_quote (clean_title content).
Proof.
  unfold clean_title. rewrite strip_chars_trim.
  set (t := trim is_quote (strip content)).
  pose proof (trim_ends is_quote (strip content)) as [H T]. fold t in H, T.
  destruct (Nat.ltb_spec 50 (length t)) as [L|L]; [|split; assumption].
  split.
  - intros c E. apply H. destruct t as [|x t']; [simpl in L; lia|].
    simpl in E. exact E.
  - intros c. rewrite rev_app_distr. simpl. intros E; injection E as <-.
    reflexivity.
Qed.

(** X3. The title never begins or ends with a double or a single quote. *)
Theorem title_without_quotes (env : Environment) (user_query : text)
  (w : world) (title : text) :
  fst (generate_conversation_title user_query w) = Ok title ->
  ends_outside is_quote title.
Proof.
  rewrite title_run. simpl. intros E; injection E as <-.
  destruct (reply _ _ _) as [r|]; [apply clean_title_ends|].
  split; intros c E; vm_compute in E; injection E as <-; reflexivity.
Qed.

Lemma title_without_quotes_witness :
  let env := example_environment [says (34 :: 39 :: txt "Sky colours" ++ [34])%N] in
  fst (generate_conversation_title (txt "why?") []) = Ok (txt "Sky colours") /\
  ends_outside is_quote (txt "Sky colours").
Proof.
  intros env.
  assert (E : fst (generate_conversation_title (txt "why?") [])
              = Ok (txt "Sky colours")) by (vm_compute; reflexivity).
  split; [exact E|].
  exact (title_without_quotes env (txt "why?") [] (txt "Sky colours") E).
Defined.

(** X4. A reply of at most 50 characters that neither begins nor ends
    with white space or a quote is the title, unchanged. *)
Theorem title_clean_reply_kept (env : Environment) (user_query : text)
  (w : world) (content : text) :
  has_content
    (reply (queries w) (txt "google/gemini-2.5-flash")
       [user_message (title_prompt user_query)]) content ->
  ends_outside is_space content -> ends_outside is_quote content ->
  length content <= 50 ->
  fst (generate_conversation_title user_query w) = Ok content.
Proof.
  intros (r & R & C) S Q L. rewrite title_run, R, C. simpl. f_equal.
  unfold clean_title. rewrite strip_trim, strip_chars_trim.
  rewrite (trim_keep is_space content S), (trim_keep is_quote content Q).
  destruct (Nat.ltb_spec 50 (length content)); [lia|reflexivity].
Qed.

Lemma title_clean_reply_kept_witness :
  let env := example_environment [says (txt "Sky colours")] in
  has_content
    (reply (queries []) (txt "google/gemini-2.5-flash")
       [user_message (title_prompt (txt "why?"))]) (txt "Sky colours") /\
  ends_outside is_space (txt "Sky colours") /\
  ends_outside is_quote (txt "Sky colours") /\
  length (txt "Sky colours") <= 50 /\
  fst (generate_conversation_title (txt "why?") []) = Ok (txt "Sky colours").
Proof.
  intros env.
  assert (C : has_content
                (reply (queries []) (txt "google/gemini-2.5-flash")
                   [user_message (title_prompt (txt "why?"))])
                (txt "Sky colours")) by (eexists; split; reflexivity).
  assert (S : ends_outside is_space (txt "Sky colours"))
    by (split; intros c E; vm_compute in E; injection E as <-; reflexivity).
  assert (Q : ends_outside is_quote (txt "Sky colours"))
    by (split; intros c E; vm_compute in E; injection E as <-; reflexivity).
  assert (L : length (txt "Sky colours") <= 50) by (vm_compute; lia).
  repeat (split; [assumption|]).
  exact (title_clean_reply_kept env (txt "why?") [] (txt "Sky colours") C S Q L).
Defined.

(** X5. A reply made of white space only, or empty, gives the empty
    title, not the default one. *)
Theorem title_blank_reply_empty (env : Environment) (user_query : text)
  (w : world) (content : text) :
  has_content
    (reply (queries w) (txt "google/gemini-2.5-flash")
       [user_message (title_prompt user_query)]) content ->
  forallb is_space content = true ->
  fst (generate_conversation_title user_query w) = Ok [].
Proof.
  intros (r & R & C) B. rewrite title_run, R, C. simpl. f_equal.
  unfold clean_title. rewrite strip_trim, (trim_all is_space content B).
  reflexivity.
Qed.

Lemma title_blank_reply_empty_witness :
  let env := example_environment [says (txt "   ")] in
  has_content
    (reply (queries []) (txt "google/gemini-2.5-flash")
       [user_message (title_prompt (txt "why?"))]) (txt "   ") /\
  forallb is_space (txt "   ") = true /\
  fst (generate_conversation_title (txt "why?") []) = Ok [].
Proof.
  intros env.
  assert (C : has_content
                (reply (queries []) (txt "google/gemini-2.5-flash")
                   [user_message (title_prompt (txt "why?"))])
                (txt "   ")) by (eexists; split; reflexivity).
  assert (B : forallb is_space (txt "   ") = true) by reflexivity.
  split; [exact C|]. split; [exact B|].
  exact (title_blank_reply_empty env (txt "why?") [] (txt "   ") C B).
Defined.

(** ** Direct reply *)

Lemma history_messages_ok (history : list HistoryMessage) :
  users_have_content history ->
  history_messages history = Ok (map user_message (user_contents history)).
Proof.
  unfold user_contents.
  induction 1 as [|msg rest H _ IH]; simpl; [reflexivity|].
  destruct (text_eqb (msg_role msg) (txt "user")) eqn:E; [|exact IH].
  apply text_eqb_eq in E. destruct (msg_content msg) as [c|].
  - rewrite IH. reflexivity.
  - destruct (H E). reflexivity.
Qed.

Lemma history_messages_raise (history : list HistoryMessage) :
  ~ users_have_content history -> history_messages history = Raise KeyError.
Proof.
  induction history as [|msg rest IH]; intros N.
  - destruct N. constructor.
  - simpl. destruct (text_eqb (msg_role msg) (txt "user")) eqn:E.
    + destruct (msg_content msg) as [c|] eqn:C; [|reflexivity].
      rewrite IH; [reflexivity|]. intros F. apply N. constructor; [|exact F].
      intros _. congruence.
    + apply IH. intros F. apply N. constructor; [|exact F].
      intros R. apply text_eqb_neq in E. contradiction.
Qed.

Lemma direct_reply_run (env : Environment) (persona : Persona)
  (history : list HistoryMessage) (user_input : text) (w : world) :
  users_have_content (last_n 5 history) ->
  let messages := direct_query persona history user_input in
  generate_direct_reply persona history user_input w
  = (rbind (reply_text (reply (queries w) (model persona) messages))
       (fun text =>
          Ok {| dr_response := text;
                dr_persona_name := name persona;
                dr_persona_role := persona_role persona;
                dr_persona_icon := icon persona;
                dr_model := model persona |}),
     w ++ [Query (model persona) messages]).
Proof.
  intros H messages. unfold generate_direct_reply.
  rewrite (history_messages_ok _ H). unfold lift at 1, bind at 1.
  unfold query_model, bind. fold (direct_query persona history user_input).
  fold messages. unfold lift.
  destruct (reply_text _); reflexivity.
Qed.

Lemma last_n_length {A} (n : nat) (l : list A) : length (last_n n l) <= n.
Proof. unfold last_n. rewrite length_skipn. lia. Qed.

Lemma user_contents_length (history : list HistoryMessage) :
  length (user_contents history) <= length history.
Proof.
  unfold user_contents.
  induction history as [|msg rest IH]; simpl; [lia|].
  rewrite length_app.
  destruct (text_eqb _ _); [destruct (msg_content msg)|]; simpl; lia.
Qed.

(** X6. With a history whose user messages have their content, a direct
    reply issues exactly one query, to the persona's model: the
    persona's system prompt first, then the contents of the user
    messages among the last five of the history, in order, then the
    user's input; between 2 and 7 messages.  The assistant's messages of
    the history are not sent. *)
Theorem direct_reply_query (env : Environment) (persona : Persona)
  (history : list HistoryMessage) (user_input : text) (w : world) :
  users_have_content (last_n 5 history) ->
  let messages :=
    system_message (system_prompt persona)
      :: map user_message (user_contents (last_n 5 history))
      ++ [user_message user_input] in
  snd (generate_direct_reply persona history user_input w)
  = w ++ [Query (model persona) messages] /\
  2 <= length messages <= 7.
Proof.
  intros H messages. rewrite direct_reply_run by exact H. split; [reflexivity|].
  unfold messages. simpl. rewrite length_app, length_map. simpl.
  pose proof (user_contents_length (last_n 5 history)).
  pose proof (last_n_length 5 history). lia.
Qed.

Lemma example_history_ok : users_have_content (last_n 5 example_history).
Proof. repeat constructor; discriminate. Qed.

Lemma direct_reply_query_witness :
  let env := example_environment [] in
  users_have_content (last_n 5 example_history) /\
  snd (generate_direct_reply example_persona example_history
         (txt "But why?") [])
  = [Query (txt "model-s")
       [system_message (txt "You are The Skeptic.");
        user_message (txt "two"); user_message (txt "three");
        user_message (txt "But why?"); user_message (txt "But why?")]].
Proof.
  intros env. split; [exact example_history_ok|].
  exact (proj1 (direct_reply_query env example_persona example_history
                  (txt "But why?") [] example_history_ok)).
Defined.

(** X7. With such a history a direct reply never raises on a reply with
    content or on a failed query: it returns the reply's text, or
    "I'm speechless." when the query fails, with the persona's name,
    role, icon and model. *)
Theorem direct_reply_result (env : Environment) (persona : Persona)
  (history : list HistoryMessage) (user_input : text) (w : world)
  (response : option Response) :
  users_have_content (last_n 5 history) ->
  reply (queries w) (model persona) (direct_query persona history user_input)
  = response ->
  (response = None ->
   fst (generate_direct_reply persona history user_input w)
   = Ok {| dr_response := txt "I'm speechless.";
           dr_persona_name := name persona;
           dr_persona_role := persona_role persona;
           dr_persona_icon := icon persona;
           dr_model := model persona |}) /\
  (forall c,
     has_content response c ->
     fst (generate_direct_reply persona history user_input w)
     = Ok {| dr_response := c;
             dr_persona_name := name persona;
             dr_persona_role := persona_role persona;
             dr_persona_icon := icon persona;
             dr_model := model persona |}).
Proof.
  intros H R. rewrite direct_reply_run by exact H. rewrite R. split.
  - intros ->. reflexivity.
  - intros c (r & -> & C). simpl. rewrite C. reflexivity.
Qed.

Lemma direct_reply_result_witness :
  let env := example_environment [] in
  users_have_content (last_n 5 example_history) /\
  reply (queries []) (model example_persona)
    (direct_query example_persona example_history (txt "But why?")) = None /\
  fst (generate_direct_reply example_persona example_history
         (txt "But why?") [])
  = Ok {| dr_response := txt "I'm speechless.";
          dr_persona_name := txt "The Skeptic";
          dr_persona_role := txt "Critical Analyst";
          dr_persona_icon := txt "?";
          dr_model := txt "model-s" |}.
Proof.
  intros env.
  assert (R : reply (queries []) (model example_persona)
                (direct_query example_persona example_history (txt "But why?"))
              = None) by reflexivity.
  split; [exact example_history_ok|]. split; [exact R|].
  exact (proj1 (direct_reply_result env example_persona example_history
                  (txt "But why?") [] None example_history_ok R) eq_refl).
Defined.

Lemma last_n_app {A} (n : nat) (old recent : list A) :
  n <= length recent -> last_n n (old ++ recent) = last_n n recent.
Proof.
  intros B. unfold last_n. rewrite length_app, skipn_app.
  rewrite skipn_all2 by lia. simpl. f_equal. lia.
Qed.

Lemma user_contents_app (a b : list HistoryMessage) :
  user_contents (a ++ b) = user_contents a ++ user_contents b.
Proof. unfold user_contents. apply flat_map_app. Qed.

(** X8. When the history already ends with the user's input, as it does
    when the input was stored before the reply is generated, the query
    ends with that input twice. *)
Theorem direct_reply_repeats_stored_input (env : Environment)
  (persona : Persona) (history : list HistoryMessage) (user_input : text)
  (w : world) :
  users_have_content (last_n 5 (history ++ [user_turn user_input])) ->
  exists messages,
    snd (generate_direct_reply persona (history ++ [user_turn user_input])
           user_input w)
    = w ++ [Query (model persona)
              (messages ++ [user_message user_input; user_message user_input])].
Proof.
  intros H. rewrite direct_reply_run by exact H. simpl.
  unfold direct_query, direct_messages.
  assert (E : exists older,
            last_n 5 (history ++ [user_turn user_input])
            = older ++ [user_turn user_input]).
  { unfold last_n. rewrite length_app, skipn_app. simpl length.
    replace (length history + 1 - 5 - length history) with 0 by lia.
    simpl. eauto. }
  destruct E as [older ->]. rewrite user_contents_app, map_app.
  exists (system_message (system_prompt persona)
            :: map user_message (user_contents older)).
  replace (user_contents [user_turn user_input]) with [user_input]
    by reflexivity.
  simpl. rewrite <- app_assoc. reflexivity.
Qed.

Lemma direct_reply_repeats_stored_input_witness :
  let env := example_environment [] in
  users_have_content
    (last_n 5 ([user_turn (txt "one"); assistant_turn]
               ++ [user_turn (txt "But why?")])) /\
  exists messages,
    snd (generate_direct_reply example_persona
           ([user_turn (txt "one"); assistant_turn]
            ++ [user_turn (txt "But why?")]) (txt "But why?") [])
    = [] ++ [Query (model example_persona)
               (messages ++ [user_message (txt "But why?");
                             user_message (txt "But why?")])].
Proof.
  intros env.
  assert (H : users_have_content
                (last_n 5 ([user_turn (txt "one"); assistant_turn]
                           ++ [user_turn (txt "But why?")])))
    by (repeat constructor; discriminate).
  split; [exact H|].
  exact (direct_reply_repeats_stored_input env example_persona
           [user_turn (txt "one"); assistant_turn] (txt "But why?") [] H).
Defined.

(** X9. Only the last five messages of the history count: whatever comes
    before them changes neither the query nor the result. *)
Theorem direct_reply_last_five (env : Environment) (persona : Persona)
  (older recent : list HistoryMessage) (user_input : text) (w : world) :
  length recent = 5 ->
  generate_direct_reply persona (older ++ recent) user_input w
  = generate_direct_reply persona recent user_input w.
Proof.
  intros L. unfold generate_direct_reply.
  rewrite last_n_app by lia. reflexivity.
Qed.

Lemma direct_reply_last_five_witness :
  let env := example_environment [says (txt "Because.")] in
  length (skipn 2 example_history) = 5 /\
  generate_direct_reply example_persona
    (firstn 2 example_history ++ skipn 2 example_history) (txt "But why?") []
  = generate_direct_reply example_persona (skipn 2 example_history)
      (txt "But why?") [].
Proof.
  intros env.
  assert (L : length (skipn 2 example_history) = 5) by reflexivity.
  split; [exact L|].
  exact (direct_reply_last_five env example_persona (firstn 2 example_history)
           (skipn 2 example_history) (txt "But why?") [] L).
Defined.

(** X10. A user message without content among the last five of the
    history makes the direct reply raise [KeyError] before any query is
    issued. *)
Theorem direct_reply_missing_content (env : Environment) (persona : Persona)
  (history : list HistoryMessage) (user_input : text) (w : world) :
  ~ users_have_content (last_n 5 history) ->
  generate_direct_reply persona history user_input w = (Raise KeyError, w).
Proof.
  intros N. unfold generate_direct_reply.
  rewrite (history_messages_raise _ N). reflexivity.
Qed.

Lemma direct_reply_missing_content_witness :
  let env := example_environment [says (txt "Because.")] in
  let history := [{| msg_role := txt "user"; msg_content := None |}] in
  ~ users_have_content (last_n 5 history) /\
  generate_direct_reply example_persona history (txt "But why?") []
  = (Raise KeyError, []).
Proof.
  intros env history.
  assert (N : ~ users_have_content (last_n 5 history)).
  { intros F. inversion F as [|? ? H _]. apply H; reflexivity. }
  split; [exact N|].
  exact (direct_reply_missing_content env example_persona history
           (txt "But why?") [] N).
Defined.

(** ** More on the parser *)

(** X11. The parser never raises, and each item it returns is a label
    ['Response <uppercase letter>'] that occurs in the text. *)
Theorem parse_returns_labels_of_text (t : text) :
  exists l,
    parse_ranking_from_text t = Ok l /\
    forall x, In x l ->
      exists L, is_upper L = true /\ x = response_label L /\
                contains x t = true.
Proof.
  destruct (parse_total t) as [l E]. exists l. split; [exact E|].
  intros x I. exact (parse_labels t l x E I).
Qed.

(** X12. With the marker, the text before its first occurrence does not
    count: two texts that differ before the first marker only have the
    same parse. *)
Theorem parse_ignores_text_before_marker (pre pre' post : text) :
  contains marker pre = false -> contains marker pre' = false ->
  parse_ranking_from_text (pre ++ marker ++ post)
  = parse_ranking_from_text (pre' ++ marker ++ post).
Proof.
  intros Hp Hp'. destruct (contains marker post) eqn:C.
  - destruct (contains_first marker post ltac:(discriminate) C)
      as (mid & rest & -> & Hm).
    rewrite !(parse_marker_present _ mid (marker ++ rest))
      by (auto; right; apply starts_with_app).
    reflexivity.
  - rewrite <- (app_nil_r post).
    rewrite !(parse_marker_present _ post []) by auto. reflexivity.
Qed.

Lemma parse_ignores_text_before_marker_witness :
  let post := newline ++ txt "1. Response B" ++ newline ++ txt "2. Response A" in
  contains marker (txt "Response A is vague, Response B is sharp. ") = false /\
  contains marker [] = false /\
  parse_ranking_from_text
    (txt "Response A is vague, Response B is sharp. " ++ marker ++ post)
  = parse_ranking_from_text ([] ++ marker ++ post).
Proof.
  intros post.
  assert (H : contains marker (txt "Response A is vague, Response B is sharp. ")
              = false) by reflexivity.
  assert (H' : contains marker [] = false) by reflexivity.
  split; [exact H|]. split; [exact H'|].
  exact (parse_ignores_text_before_marker _ [] post H H').
Defined.

(** X13. From the 27th Stage 1 result on, the label is not a letter of
    the alphabet: the result is mapped from a label that the parser
    never returns, so no ranking text can give it a position. *)
Theorem results_beyond_26_unrankable (stage1_results : list Stage1Result)
  (i : nat) (r : Stage1Result) :
  nth_error stage1_results i = Some r -> 26 <= i ->
  let label := response_label (65 + N.of_nat i)%N in
  dict_get label (label_mapping (letters (length stage1_results)) stage1_results)
  = Some (s1_persona_name r) /\
  forall t l, parse_ranking_from_text t = Ok l -> ~ In label l.
Proof.
  intros E B label. split; [apply label_mapping_letters, E|].
  intros t l P I.
  destruct (parse_labels t l label P I) as (L & U & EL & _).
  apply response_label_inj in EL. subst L.
  unfold is_upper, between in U. apply andb_true_iff in U as [_ U].
  apply N.leb_le in U. lia.
Qed.

Lemma results_beyond_26_unrankable_witness :
  let many := repeat (example_result "Echo" "model-e" "Again.") 27 in
  nth_error many 26 = Some (example_result "Echo" "model-e" "Again.") /\
  26 <= 26 /\
  dict_get (response_label 91%N) (label_mapping (letters 27) many)
  = Some (txt "Echo") /\
  forall t l,
    parse_ranking_from_text t = Ok l -> ~ In (response_label 91%N) l.
Proof.
  intros many.
  assert (E : nth_error many 26
              = Some (example_result "Echo" "model-e" "Again."))
    by reflexivity.
  assert (B : 26 <= 26) by lia.
  split; [exact E|]. split; [exact B|].
  exact (results_beyond_26_unrankable many 26 _ E B).
Defined.

(** ** More on the stages *)


Lemma query_events_same (messages : list Message)
  (stage1_results : list Stage1Result) :
  query_events (map (fun r => (s1_model r, messages)) stage1_results)
  = map (fun r => Query (s1_model r) messages) stage1_results.
Proof. unfold query_events. rewrite map_map. reflexivity. Qed.



(** X15. Stage 3 never raises and always issues exactly one query, to
    the chairman model, even with no Stage 1 and no Stage 2 result; the
    model of its result is always "Chairman". *)
Theorem stage3_one_query (env : Environment) (user_query : text)
  (stage1_results : list Stage1Result) (stage2_results : list Stage2Result)
  (w : world) :
  exists result messages,
    stage3_synthesize_final user_query stage1_results stage2_results w
    = (Ok result, w ++ [Enter OpStage3; Query CHAIRMAN_MODEL messages]) /\
    s3_model result = txt "Chairman" /\
    queries (w ++ [Enter OpStage3; Query CHAIRMAN_MODEL messages])
    = S (queries w).
Proof.
  eexists _, _. rewrite stage3_run. split; [reflexivity|]. split.
  - unfold synthesis. destruct (reply _ _ _); reflexivity.
  - rewrite queries_app. unfold queries at 2. simpl. lia.
Qed.

(** ** More on the orchestrator *)

Lemma operations_of_app (w w' : world) :
  operations_of (w ++ w') = operations_of w ++ operations_of w'.
Proof. unfold operations_of. apply flat_map_app. Qed.

Lemma operations_of_query_events (tasks : list (text * list Message)) :
  operations_of (query_events tasks) = [].
Proof.
  unfold operations_of, query_events.
  induction tasks as [|t tasks IH]; simpl; [reflexivity|exact IH].
Qed.

(** X16. A turn that gets past Stage 1 never raises (with a planner value
    of the persona schema and within the range of [chr]).  It enters the
    planner, Stage 1, Stage 2, the aggregation and Stage 3, once each and
    in this order, and issues one query for the plan, one for each
    persona, one for each Stage 1 result and one for the synthesis.  It
    returns no more Stage 2 results than Stage 1 results, and no more
    Stage 1 results than personas. *)
Theorem full_turn_trace (env : Environment) (user_query : text)
  (w w1 w2 : world) (personas : pyval) (council : list Persona)
  (stage1_results : list Stage1Result) :
  generate_dynamic_personas user_query w = (Ok personas, w1) ->
  as_personas personas = Ok council ->
  stage1_collect_responses user_query council w1 = (Ok stage1_results, w2) ->
  stage1_results <> [] ->
  (N.of_nat (length stage1_results) <= 1114047)%N ->
  exists out turn,
    run_full_council user_query w = (Ok out, w ++ turn) /\
    operations_of turn
    = [OpPlanner; OpStage1; OpStage2; OpAggregate; OpStage3] /\
    queries turn = length council + length stage1_results + 2 /\
    out_stage1 out = stage1_results /\
    length (out_stage2 out) <= length stage1_results /\
    length stage1_results <= length council.
Proof.
  intros G A S1 NE B.
  destruct (stage2_run env user_query stage1_results w2 B) as (results & E & S2).
  destruct (format_rankings_ranked
              (combine (map s1_persona_name stage1_results)
                 (outcomes (queries w2)
                    (stage2_tasks user_query
                       (letters (length stage1_results)) stage1_results))))
    as (results' & E' & F).
  rewrite E in E'; injection E' as <-.
  pose proof (council_run env user_query w w1 w2 _ personas council
                stage1_results _ G A S1 NE S2) as R.
  cbn [stage2_results label_to_persona] in R.
  pose proof G as G'. rewrite generate_run in G'. injection G' as _ <-.
  pose proof S1 as S1'. rewrite stage1_run in S1'. injection S1' as Er <-.
  eexists _,
    ([Enter OpPlanner; planner_query user_query]
     ++ (Enter OpStage1 :: query_events (stage1_tasks user_query council))
     ++ (Enter OpStage2
           :: query_events
                (stage2_tasks user_query (letters (length stage1_results))
                   stage1_results))
     ++ [Enter OpAggregate; Enter OpStage3; Query CHAIRMAN_MODEL _]).
  split; [|split; [|split; [|split; [|split]]]].
  - rewrite R. f_equal. rewrite !app_assoc. reflexivity.
  - rewrite !operations_of_app.
    change (operations_of (Enter OpStage1 :: ?l))
      with (OpStage1 :: operations_of l).
    change (operations_of (Enter OpStage2 :: ?l))
      with (OpStage2 :: operations_of l).
    rewrite !operations_of_query_events. reflexivity.
  - rewrite !queries_app.
    change (queries (Enter OpStage1 :: ?l)) with (queries l).
    change (queries (Enter OpStage2 :: ?l)) with (queries l).
    rewrite !queries_query_events.
    unfold stage1_tasks, stage2_tasks. rewrite !length_map.
    unfold queries, planner_query. simpl. lia.
  - reflexivity.
  - cbn [out_stage2]. rewrite (Forall2_length F).
    etransitivity; [apply filter_length_le|].
    rewrite length_combine, length_map. lia.
  - rewrite <- Er.
    rewrite (Forall2_length (stage1_results_made_from _)).
    etransitivity; [apply filter_length_le|].
    rewrite length_combine. lia.
Qed.

Lemma full_turn_trace_witness :
  let env :=
    example_turn
      [says (txt "FINAL RANKING: 1. Response B 2. Response A 3. Response C");
       None; None; says (txt "In short: yes.")] in
  exists personas council w1 stage1_results w2,
    generate_dynamic_personas (txt "why?") [] = (Ok personas, w1) /\
    as_personas personas = Ok council /\
    stage1_collect_responses (txt "why?") council w1 = (Ok stage1_results, w2) /\
    stage1_results <> [] /\
    (N.of_nat (length stage1_results) <= 1114047)%N /\
    exists out turn,
      run_full_council (txt "why?") [] = (Ok out, turn) /\
      operations_of turn
      = [OpPlanner; OpStage1; OpStage2; OpAggregate; OpStage3] /\
      queries turn = 8.
Proof.
  intros env. eexists _, _, _, _, _.
  split; [vm_compute; reflexivity|].
  split; [vm_compute; reflexivity|].
  split; [vm_compute; reflexivity|].
  split; [discriminate|].
  split; [vm_compute; discriminate|].
  destruct (full_turn_trace env (txt "why?") [] _ _ _ _ _
              ltac:(vm_compute; reflexivity) ltac:(vm_compute; reflexivity)
              ltac:(vm_compute; reflexivity) ltac:(discriminate)
              ltac:(vm_compute; discriminate))
    as (out & turn & R & O & Q & _).
  exists out, turn. split; [exact R|]. split; [exact O|]. exact Q.
Defined.

(** ** More on the planner *)

Lemma split_two (sep s : text) :
  sep <> [] -> contains sep s = true ->
  forall cur, exists x y ys, split_go sep 0 cur s = x :: y :: ys.
Proof.
  intros NE. induction s as [|c s IH]; intros H cur.
  - simpl in H. rewrite orb_false_r in H.
    destruct sep; [congruence|discriminate].
  - cbn [split_go]. destruct (starts_with sep (c :: s)) eqn:Hd.
    + destruct (split_go_cur sep s (length sep - 1) []) as (x & xs & E & _).
      rewrite E. eexists _, _, _; reflexivity.
    + simpl in H. simpl in Hd. rewrite Hd in H. simpl in H.
      apply IH. exact H.
Qed.

Lemma split_first_fresh (c : char) (tl pre s : text) :
  existsb (N.eqb c) pre = false ->
  split (c :: tl) (pre ++ (c :: tl) ++ s) = pre :: split (c :: tl) s.
Proof.
  induction pre as [|x pre IH]; intros H.
  - apply (split_sep_head (c :: tl) s). discriminate.
  - simpl in H. apply orb_false_iff in H as [Hx H].
    unfold split in *.
    change ((x :: pre) ++ (c :: tl) ++ s) with (x :: pre ++ (c :: tl) ++ s).
    cbn [split_go starts_with]. rewrite Hx. cbn [andb].
    destruct (split_go_cur (c :: tl) (pre ++ (c :: tl) ++ s) 0 [x])
      as (y & ys & E1 & E2).
    rewrite E2. rewrite (IH H) in E1. injection E1 as <- <-. reflexivity.
Qed.

Lemma strip_fence_total (content : text) :
  exists body, strip_fence content = Ok body.
Proof.
  assert (First : forall sep s, exists x, index (split sep s) 0 = Ok x).
  { intros sep s. unfold split.
    destruct (split_go_cur sep s 0 []) as (x & xs & E & _).
    rewrite E. exists x; reflexivity. }
  assert (Second : forall sep s, sep <> [] -> contains sep s = true ->
            exists y, index (split sep s) 1 = Ok y).
  { intros sep s NE H. unfold split.
    destruct (split_two sep s NE H []) as (x & y & ys & E).
    rewrite E. exists y; reflexivity. }
  unfold strip_fence.
  destruct (contains (txt "```json") content) eqn:E1.
  - destruct (Second (txt "```json") content
                ltac:(vm_compute; discriminate) E1) as [y ->].
    cbn [rbind]. apply First.
  - destruct (contains (txt "```") content) eqn:E2.
    + destruct (Second (txt "```") content
                  ltac:(vm_compute; discriminate) E2) as [y ->].
      cbn [rbind]. apply First.
    + eexists; reflexivity.
Qed.

Lemma strip_fence_fenced (pre body rest : text) :
  free_of backquote pre = true -> free_of backquote body = true ->
  contains (txt "```json") (body ++ txt "```" ++ rest) = false ->
  strip_fence (fenced pre body rest) = Ok body.
Proof.
  unfold free_of, backquote, fenced. intros P B N.
  apply negb_true_iff in P, B.
  unfold strip_fence. rewrite contains_intro.
  pose proof (split_first_fresh 96%N (txt "``json") pre
                (body ++ txt "```" ++ rest) P) as E1.
  pose proof (split_first_fresh 96%N (txt "``") body rest B) as E2.
  change (96%N :: txt "``json") with (txt "```json") in E1.
  change (96%N :: txt "``") with (txt "```") in E2.
  rewrite E1, (split_none _ _ N). cbn [index nth_error rbind].
  rewrite E2. reflexivity.
Qed.

(** X17. The planner never raises and issues exactly one query, to the
    Chairman model with the planner prompt as its only message.  Removing
    the code fence never fails.  What the planner returns is the default
    personas, or else the reply has content that decodes, once the fence
    is removed and the text is trimmed, to an object, and the planner
    returns that object's ['personas'] value (the empty list when the
    key is missing). *)
Theorem planner_outcomes (env : Environment) (user_query : text) (w : world) :
  (forall content, exists body, strip_fence content = Ok body) /\
  exists personas,
    generate_dynamic_personas user_query w
    = (Ok personas,
       w ++ [Enter OpPlanner;
             Query CHAIRMAN_MODEL [user_message (planner_prompt user_query)]]) /\
    (personas = fallback \/
     exists content body d,
       reply (queries w) CHAIRMAN_MODEL
         [user_message (planner_prompt user_query)]
       = says content /\
       content <> [] /\
       strip_fence content = Ok body /\
       json_loads (strip body) = Some (PDict d) /\
       personas = personas_of d).
Proof.
  split; [exact strip_fence_total|].
  rewrite generate_run. eexists. split; [reflexivity|].
  unfold planner_value, truthy_content.
  destruct (reply _ _ _) as [[[[|c content]|]]|]; cbn [reply_content]; auto.
  unfold decode_personas.
  destruct (strip_fence_total (c :: content)) as [body E]. rewrite E.
  cbn [rbind].
  destruct (json_loads (strip body)) as [data|] eqn:J; auto.
  destruct data; cbn [get_personas]; auto.
  right. exists (c :: content), body, d.
  repeat split; [discriminate|exact E|exact J|].
  unfold personas_of. destruct (dict_get _ d); reflexivity.
Qed.

(** X18. When the reply wraps its JSON in a json code fence, with text
    before and after it, the planner decodes what is between the fences:
    it returns the ['personas'] value of the object the trimmed body
    decodes to.  (The text before the fence and the body hold no
    backquote, and no second json fence follows.) *)
Theorem planner_fenced_reply (env : Environment) (user_query : text)
  (w : world) (pre body rest : text) (d : list (text * pyval)) :
  reply (queries w) CHAIRMAN_MODEL [user_message (planner_prompt user_query)]
  = says (fenced pre body rest) ->
  free_of backquote pre = true ->
  free_of backquote body = true ->
  contains (txt "```json") (body ++ txt "```" ++ rest) = false ->
  json_loads (strip body) = Some (PDict d) ->
  strip_fence (fenced pre body rest) = Ok body /\
  fst (generate_dynamic_personas user_query w) = Ok (personas_of d).
Proof.
  intros R P B N J.
  pose proof (strip_fence_fenced pre body rest P B N) as F.
  split; [exact F|].
  rewrite generate_run, R. cbn [fst].
  unfold planner_value, says, truthy_content. cbn [reply_content].
  destruct (fenced pre body rest) as [|c content] eqn:E.
  - apply (f_equal (contains (txt "```json"))) in E.
    unfold fenced in E. rewrite contains_intro in E. discriminate.
  - unfold decode_personas. rewrite F. cbn [rbind]. rewrite J.
    unfold personas_of. cbn [get_personas].
    destruct (dict_get _ d); reflexivity.
Qed.

Lemma planner_fenced_reply_witness :
  let env :=
    example_environment
      [says (fenced (txt "Here is the team:" ++ newline)
               (newline ++ txt "{}" ++ newline) (txt " Enjoy."))] in
  fst (generate_dynamic_personas (txt "why?") []) = Ok (PList []).
Proof.
  intros env.
  exact (proj2 (planner_fenced_reply env (txt "why?") []
                  (txt "Here is the team:" ++ newline)
                  (newline ++ txt "{}" ++ newline) (txt " Enjoy.") []
                  ltac:(vm_compute; reflexivity) ltac:(vm_compute; reflexivity)
                  ltac:(vm_compute; reflexivity) ltac:(vm_compute; reflexivity)
                  ltac:(vm_compute; reflexivity))).
Defined.

(** X19. The default personas are the configured personas of the default
    ids, in the order of the default ids: each carries its id under the
    key ['id'] and every other field as configured.  A default id that
    is not configured is skipped. *)
Theorem default_personas_configured (env : Environment) :
  Forall2
    (fun pid persona =>
       dict_get (txt "id") persona = Some pid /\
       exists configured,
         dict_get pid PERSONAS = Some configured /\
         forall key, key <> txt "id" ->
           dict_get key persona = dict_get key configured)
    (filter (fun pid => is_some (dict_get pid PERSONAS)) DEFAULT_PERSONAS)
    default_personas.
Proof.
  unfold default_personas.
  induction DEFAULT_PERSONAS as [|pid l IH]; simpl; [constructor|].
  destruct (dict_get pid PERSONAS) as [configured|] eqn:E; simpl;
    [|exact IH].
  constructor; [|exact IH]. split; [apply dict_get_set_same|].
  exists configured. split; [exact E|].
  intros key N. apply dict_get_set_other. congruence.
Qed.

Lemma responses_text_ext (rs rs' : list Stage1Result) :
  map response rs = map response rs' ->
  forall labels, responses_text labels rs = responses_text labels rs'.
Proof.
  intros E labels. unfold responses_text. f_equal.
  revert rs' E labels.
  induction rs as [|r rs IH]; intros [|r' rs'] E labels;
    try discriminate; [destruct labels; reflexivity|].
  injection E as Er E. destruct labels as [|L labels]; [reflexivity|].
  cbn [combine map fst snd]. rewrite Er, (IH rs' E labels). reflexivity.
Qed.

(** X20. The Stage 2 prompt does not depend on who wrote the responses:
    for two Stage 1 result lists with the same response texts in the
    same order, whatever their personas and models, Stage 2 sends the
    same messages to every ranker. *)
Theorem stage2_prompt_anonymous (env : Environment) (user_query : text)
  (stage1_results stage1_results' : list Stage1Result) (w w' : world) :
  (N.of_nat (length stage1_results) <= 1114047)%N ->
  map response stage1_results = map response stage1_results' ->
  exists messages ranked ranked',
    stage2_collect_rankings user_query stage1_results w
    = (Ok ranked,
       w ++ Enter OpStage2
         :: map (fun r => Query (s1_model r) messages) stage1_results) /\
    stage2_collect_rankings user_query stage1_results' w'
    = (Ok ranked',
       w' ++ Enter OpStage2
         :: map (fun r => Query (s1_model r) messages) stage1_results').
Proof.
  intros B E.
  assert (L : length stage1_results' = length stage1_results).
  { rewrite <- (length_map response stage1_results'), <- E.
    apply length_map. }
  assert (B' : (N.of_nat (length stage1_results') <= 1114047)%N)
    by (rewrite L; exact B).
  destruct (stage2_run env user_query stage1_results w B) as (results & _ & S).
  destruct (stage2_run env user_query stage1_results' w' B')
    as (results' & _ & S').
  rewrite L in S'. unfold stage2_tasks in S, S'.
  rewrite <- (responses_text_ext _ _ E) in S'.
  rewrite query_events_same in S, S'.
  eexists _, _, _. split; [exact S|exact S'].
Qed.

Lemma stage2_prompt_anonymous_witness :
  let env := example_environment [] in
  let by_skeptic := [example_answer "The Skeptic" "model-s"] in
  let by_visionary := [example_answer "The Visionary" "model-v"] in
  exists messages ranked ranked',
    stage2_collect_rankings (txt "why?") by_skeptic []
    = (Ok ranked, [Enter OpStage2; Query (txt "model-s") messages]) /\
    stage2_collect_rankings (txt "why?") by_visionary []
    = (Ok ranked', [Enter OpStage2; Query (txt "model-v") messages]).
Proof.
  intros env by_skeptic by_visionary.
  exact (stage2_prompt_anonymous env (txt "why?") by_skeptic by_visionary
           [] [] ltac:(vm_compute; discriminate) ltac:(reflexivity)).
Defined.

(** ** Ties in the aggregate ranking *)

Lemma precedes_snoc {A} (p q x : A) (ks : list A) :
  precedes p q (ks ++ [x]) -> precedes p q ks \/ (In p ks /\ q = x).
Proof.
  induction ks as [|k ks IH]; simpl.
  - intros [[_ []]|[]].
  - intros [[-> I]|H].
    + apply in_app_or in I as [I|[<-|[]]]; auto.
    + destruct (IH H) as [H'|[I ->]]; auto.
Qed.

Lemma precedes_map {A B} (f : A -> B) (a b : A) (l : list A) :
  precedes a b l -> precedes (f a) (f b) (map f l).
Proof.
  induction l as [|x l IH]; simpl; [tauto|].
  intros [[-> I]|H]; [left|right; auto].
  split; [reflexivity|apply in_map, I].
Qed.

Lemma nth_error_precedes {A} (l : list A) :
  forall i j a b,
    nth_error l i = Some a -> nth_error l j = Some b -> i < j ->
    precedes a b l.
Proof.
  induction l as [|x l IH]; intros i j a b Ha Hb L.
  - destruct i; discriminate.
  - destruct j as [|j]; [lia|]. simpl in Hb. destruct i as [|i].
    + injection Ha as ->. left. split; [reflexivity|].
      eapply nth_error_In, Hb.
    + right. apply (IH i j); [exact Ha|exact Hb|lia].
Qed.

Lemma first_seen_set {V} (x : text) (v : V) (d : dict V) (seen : list text) :
  first_seen_order (keys d) seen ->
  first_seen_order (keys (dict_set x v d)) (seen ++ [x]).
Proof.
  intros [M O]. rewrite dict_set_keys.
  assert (Old : forall p q, precedes p q (keys d) ->
            exists l1 l2, seen ++ [x] = l1 ++ p :: l2 /\ ~ In q l1).
  { intros p q H. destruct (O p q H) as (l1 & l2 & -> & N).
    exists l1, (l2 ++ [x]). rewrite <- app_assoc. auto. }
  destruct (dict_get x d) as [v'|] eqn:G.
  - apply dict_get_in, (in_map fst) in G. fold (keys d) in G. simpl in G.
    split; [|exact Old].
    intros p. rewrite in_app_iff, <- M. simpl. split; [tauto|].
    intros [I|[<-|[]]]; assumption.
  - apply dict_get_none in G. split.
    + intros p. rewrite !in_app_iff, M. tauto.
    + intros p q H. apply precedes_snoc in H as [H|[I ->]]; [auto|].
      apply M, in_split in I as (l1 & l2 & E).
      exists l1, (l2 ++ [x]). split.
      * rewrite E, <- app_assoc. reflexivity.
      * intros I. apply G, M. rewrite E. apply in_or_app; auto.
Qed.

Lemma record_ranking_order (label_to_persona : dict text) (order : list text) :
  forall position model_positions seen,
    first_seen_order (keys model_positions) seen ->
    first_seen_order
      (keys (record_ranking label_to_persona position order model_positions))
      (seen ++ named_in label_to_persona order).
Proof.
  unfold named_in.
  induction order as [|label rest IH]; intros position mp seen F;
    cbn [record_ranking flat_map].
  - rewrite app_nil_r. exact F.
  - destruct (dict_get label label_to_persona) as [persona|].
    + rewrite app_assoc. apply IH, first_seen_set, F.
    + apply IH, F.
Qed.

Lemma collect_positions_order (label_to_persona : dict text)
  (stage2_results : list Stage2Result) :
  forall model_positions seen final,
    first_seen_order (keys model_positions) seen ->
    collect_positions stage2_results label_to_persona model_positions
    = Ok final ->
    first_seen_order (keys final)
      (seen ++ named stage2_results label_to_persona).
Proof.
  unfold named.
  induction stage2_results as [|r rs IH]; intros mp seen final F H;
    cbn [collect_positions flat_map] in *.
  - injection H as <-. rewrite app_nil_r. exact F.
  - unfold parsed_order.
    destruct (parse_total (ranking r)) as [order P]. rewrite P in *.
    cbn [rbind] in H. rewrite app_assoc.
    apply (IH _ _ _ (record_ranking_order _ _ _ _ _ F) H).
Qed.

Lemma insert_entry_precedes (x a b : AggregateEntry)
  (l : list AggregateEntry) :
  precedes a b (insert_entry x l) ->
  precedes a b l \/ (a = x /\ In b l) \/
  (b = x /\ float_ltb (average_rank a) (average_rank x) = true).
Proof.
  induction l as [|y l IH]; simpl.
  - intros [[_ []]|[]].
  - destruct (float_ltb (average_rank y) (average_rank x)) eqn:E; simpl.
    + intros [[-> I]|H].
      * apply (Permutation_in _ (insert_entry_perm x l)) in I.
        destruct I as [<-|I]; auto.
      * destruct (IH H) as [H'|[[-> I]|R]]; auto.
    + intros [[-> I]|H]; auto.
Qed.

(** The sort is stable. *)
Lemma sort_stable (a b : AggregateEntry) (l : list AggregateEntry) :
  precedes a b (sort_by_average_rank l) ->
  float_ltb (average_rank a) (average_rank b) = false ->
  precedes a b l.
Proof.
  intros H T. induction l as [|x l IH]; simpl in *; [exact H|].
  apply insert_entry_precedes in H as [H|[[-> I]|[-> R]]].
  - right. apply IH, H.
  - left. split; [reflexivity|].
    apply (Permutation_in _ (sort_perm l)), I.
  - congruence.
Qed.

(** X21. Ties keep the order of first mention: when an entry of the
    aggregate ranking is listed before another one of the same average
    rank, its persona was named by a ranking before the other one was
    named at all. *)
Theorem ties_keep_first_named_order (stage2_results : list Stage2Result)
  (label_to_persona : dict text) (aggregate : list AggregateEntry)
  (a b : AggregateEntry) (i j : nat) :
  calculate_aggregate_rankings stage2_results label_to_persona
  = Ok aggregate ->
  nth_error aggregate i = Some a -> nth_error aggregate j = Some b ->
  i < j ->
  float_ltb (average_rank a) (average_rank b) = false ->
  exists l1 l2,
    named stage2_results label_to_persona = l1 ++ agg_model a :: l2 /\
    ~ In (agg_model b) l1.
Proof.
  intros C Ha Hb L T. unfold calculate_aggregate_rankings in C.
  destruct (collect_positions_recorded label_to_persona stage2_results []
              well_formed_empty) as (final & E & W & _).
  rewrite E in C. cbn [rbind] in C. injection C as <-.
  assert (F : first_seen_order (keys final)
                ([] ++ named stage2_results label_to_persona)).
  { apply (collect_positions_order _ _ [] [] final); [|exact E].
    split; [tauto|]. intros p q []. }
  destruct F as [_ O]. apply O.
  rewrite <- (aggregate_entries_models final W).
  apply precedes_map, sort_stable; [|exact T].
  apply (nth_error_precedes _ i j); assumption.
Qed.

Lemma ties_keep_first_named_order_witness :
  exists l1 l2,
    named example_rankers example_mapping = l1 ++ txt "Historian" :: l2 /\
    ~ In (txt "Visionary") l1.
Proof.
  exact (ties_keep_first_named_order example_rankers example_mapping
           [ {| agg_model := txt "Historian";
                average_rank := one_and_a_half;
                rankings_count := 2 |};
             {| agg_model := txt "Visionary";
                average_rank := one_and_a_half;
                rankings_count := 2 |} ]
           {| agg_model := txt "Historian";
              average_rank := one_and_a_half;
              rankings_count := 2 |}
           {| agg_model := txt "Visionary";
              average_rank := one_and_a_half;
              rankings_count := 2 |}
           0 1
           ltac:(vm_compute; reflexivity) ltac:(reflexivity)
           ltac:(reflexivity) ltac:(lia) ltac:(vm_compute; reflexivity)).
Defined.
